(** * photo_organizer: a shallow embedding of [src/photo_organizer/main.py]

    The program sorts the files of a folder into one directory per
    calendar day ([<folder>/[<year>/]<Mon>/<month>-<day>]) and removes the
    directories left empty.  This development embeds its three commands
    ([all], [year], [month]) and its two helpers ([move_files],
    [clean_folders]) over a model of the file system as a finite map from
    paths to inodes, and states the properties of the specification about
    them. *)

From stdpp Require Import gmap strings pretty list sorting.
From Stdlib Require Import ZArith Lia.

Local Open Scope string_scope.
Local Open Scope list_scope.
Local Open Scope Z_scope.

(** ** Calendar: [datetime.datetime] and [datetime.timedelta(days=1)] *)

(** A naive [datetime]: the fields Python exposes, as integers. *)
Record datetime := mk_datetime {
  dt_year : Z; dt_month : Z; dt_day : Z;
  dt_hour : Z; dt_minute : Z; dt_second : Z; dt_microsecond : Z
}.

Global Instance datetime_eq_dec : EqDecision datetime.
Proof. solve_decision. Defined.

Definition MINYEAR : Z := 1.
Definition MAXYEAR : Z := 9999.

Definition is_leap (y : Z) : bool :=
  (y mod 4 =? 0) && (negb (y mod 100 =? 0) || (y mod 400 =? 0)).

Definition days_in_month (y m : Z) : Z :=
  match m with
  | 2 => if is_leap y then 29 else 28
  | 4 | 6 | 9 | 11 => 30
  | _ => 31
  end.

(** The dates a [datetime] object can hold. *)
Definition valid_date (d : datetime) : Prop :=
  MINYEAR <= dt_year d <= MAXYEAR /\ 1 <= dt_month d <= 12 /\
  1 <= dt_day d <= days_in_month (dt_year d) (dt_month d).

Definition valid_dateb (d : datetime) : bool :=
  (MINYEAR <=? dt_year d) && (dt_year d <=? MAXYEAR) &&
  (1 <=? dt_month d) && (dt_month d <=? 12) &&
  (1 <=? dt_day d) && (dt_day d <=? days_in_month (dt_year d) (dt_month d)).

(** [d.replace(month=.., day=.., hour=0, minute=0, second=0, microsecond=0)] *)
Definition replace_date (d : datetime) (m dd : Z) : datetime :=
  mk_datetime (dt_year d) m dd 0 0 0 0.

Definition replace_day (d : datetime) (dd : Z) : datetime :=
  mk_datetime (dt_year d) (dt_month d) dd 0 0 0 0.

Definition replace_time (d : datetime) : datetime :=
  mk_datetime (dt_year d) (dt_month d) (dt_day d) 0 0 0 0.

Definition with_date (d : datetime) (y m dd : Z) : datetime :=
  mk_datetime y m dd (dt_hour d) (dt_minute d) (dt_second d) (dt_microsecond d).

(** [d + timedelta(days=1)]; [None] is Python's [OverflowError]
    ("date value out of range"), raised past 9999-12-31. *)
Definition add_one_day (d : datetime) : option datetime :=
  if dt_day d <? days_in_month (dt_year d) (dt_month d)
  then Some (with_date d (dt_year d) (dt_month d) (dt_day d + 1))
  else if dt_month d <? 12
  then Some (with_date d (dt_year d) (dt_month d + 1) 1)
  else if dt_year d <? MAXYEAR
  then Some (with_date d (dt_year d + 1) 1 1)
  else None.

(** [d - timedelta(days=1)]; [None] below 0001-01-01. *)
Definition sub_one_day (d : datetime) : option datetime :=
  if 1 <? dt_day d
  then Some (with_date d (dt_year d) (dt_month d) (dt_day d - 1))
  else if 1 <? dt_month d
  then Some (with_date d (dt_year d) (dt_month d - 1)
               (days_in_month (dt_year d) (dt_month d - 1)))
  else if MINYEAR <? dt_year d
  then Some (with_date d (dt_year d - 1) 12 31)
  else None.

(** Comparison of naive datetimes is lexicographic on the fields. *)
Definition datetime_key (d : datetime) : list Z :=
  [dt_year d; dt_month d; dt_day d; dt_hour d; dt_minute d; dt_second d;
   dt_microsecond d].

Fixpoint lex_leb (a b : list Z) : bool :=
  match a, b with
  | [], _ => true
  | _ :: _, [] => false
  | x :: a', y :: b' => (x <? y) || ((x =? y) && lex_leb a' b')
  end.

Definition datetime_le (a b : datetime) : bool :=
  lex_leb (datetime_key a) (datetime_key b).

(** [d.strftime("%B")]: the full month name (the program never sets a
    locale, so these are the C-locale names). *)
Definition strftime_B (d : datetime) : string :=
  match dt_month d with
  | 1 => "January" | 2 => "February" | 3 => "March" | 4 => "April"
  | 5 => "May" | 6 => "June" | 7 => "July" | 8 => "August"
  | 9 => "September" | 10 => "October" | 11 => "November"
  | 12 => "December" | _ => ""
  end.

(** [s[0:3]] *)
Definition slice_0_3 (s : string) : string := String.substring 0 3 s.

(** [f"{d.month}-{d.day}"] *)
Definition month_day (d : datetime) : string :=
  pretty (dt_month d) +:+ "-" +:+ pretty (dt_day d).

(** [str(d.year)] *)
Definition str_year (d : datetime) : string := pretty (dt_year d).

(** ** The file system *)

(** A path is the list of its components below the root [/]: [Path(p, a, b)]
    is [p ++ [a; b]], [p / a] is [p ++ [a]], [p.parent] drops the last
    component and [p.name] is the last component. *)
Abbreviation path := (list string).

Definition parent (p : path) : path := removelast p.
Definition name (p : path) : string := List.last p "".

(** What [os.stat] reports of a regular file: the two timestamps the
    program reads (seconds since the epoch) and the inode number, which
    tells files apart. *)
Record stat_result := mk_stat {
  st_mtime : Z; st_ctime : Z; st_ino : Z
}.

Global Instance stat_result_eq_dec : EqDecision stat_result.
Proof. solve_decision. Defined.

Inductive inode :=
  | File (st : stat_result)
  | Directory.

Global Instance inode_eq_dec : EqDecision inode.
Proof. solve_decision. Defined.

(** The tree as a finite map: a path is present when it exists. *)
Abbreviation filesystem := (gmap path inode).

(** Every entry lies in a directory that exists. *)
Definition well_formed (t : filesystem) : Prop :=
  t !! [] = Some Directory /\
  map_Forall (fun p _ => t !! parent p = Some Directory) t.

Global Instance well_formed_dec t : Decision (well_formed t).
Proof. unfold well_formed. apply _. Defined.

(** The exceptions the program can meet. *)
Inductive exception :=
  | FileNotFoundError
  | FileExistsError
  | NotADirectoryError
  | IsADirectoryError
  | PermissionError
  | OSError (errno : string)
  | OverflowError.

Global Instance exception_eq_dec : EqDecision exception.
Proof. solve_decision. Defined.

(** [FileNotFoundError] is the one subclass of [OSError] that [Path.mkdir]
    tells apart; [OverflowError] is not an [OSError]. *)
Definition is_OSError (e : exception) : bool :=
  match e with OverflowError => false | _ => true end.

(** The calls that change the tree. *)
Inductive syscall :=
  | Rename (src dst : path)
  | Rmdir (p : path)
  | Mkdir (p : path).

(** What the program takes from its environment: the conversion of a
    timestamp to America/Los_Angeles wall time (pytz), the wall clock, the
    order in which [os.scandir] lists a directory (arbitrary), and the
    calls the operating system refuses for reasons outside the tree
    (permissions, another device, a read-only medium). *)
Record platform := mk_platform {
  astimezone_LA : Z -> datetime;
  datetime_now : datetime;
  scandir_order : list (string * inode) -> list (string * inode);
  refuses : syscall -> option exception
}.

(** ** Logging *)

Inductive level := DEBUG | INFO | ERROR.

Inductive message :=
  | Deleted_empty_directory (subdir : path)
  | Not_empty_or_not_a_directory (subdir : path)
  | Found_file (file_path : path)
  | Creation_time (t : datetime)
  | Modified_time (t : datetime)
  | Moving_file (file_path destination_path : path)
  | File_already_exists (destination_path : path)
  | Error_moving_file (e : exception)
  | Organizing_by_year (folder : path)
  | Organizing_by_month (folder : path)
  | Starting_from_date (start : datetime)
  | Directory_already_exists (target_directory : path)
  | Creating_directory (target_directory : path).

Global Instance level_eq_dec : EqDecision level.
Proof. solve_decision. Defined.
Global Instance message_eq_dec : EqDecision message.
Proof. solve_decision. Defined.

(** ** Computations: state (tree and log) and exceptions *)

Record world := mk_world {
  fs : gmap path inode;
  log : list (level * message)
}.

Inductive outcome (A : Type) :=
  | Return (a : A) (w : world)
  | Raise (e : exception) (w : world)
  | Running.
Arguments Return {A} a w.
Arguments Raise {A} e w.
Arguments Running {A}.

Definition M (A : Type) : Type := world -> outcome A.

Definition ret {A} (a : A) : M A := fun w => Return a w.
Definition raise {A} (e : exception) : M A := fun w => Raise e w.
Definition running {A} : M A := fun _ => Running.

Definition bind {A B} (m : M A) (k : A -> M B) : M B :=
  fun w => match m w with
           | Return a w' => k a w'
           | Raise e w' => Raise e w'
           | Running => Running
           end.

Notation "x <- m ;; k" := (bind m (fun x => k))
  (at level 100, m at next level, k at level 200, right associativity).
Notation "m ;;; k" := (bind m (fun _ => k))
  (at level 100, k at level 200, right associativity).

(** [try: m except Exception as e: h e] *)
Definition try_except {A} (m : M A) (h : exception -> M A) : M A :=
  fun w => match m w with
           | Raise e w' => h e w'
           | r => r
           end.

Definition logger (l : level) (msg : message) : M unit :=
  fun w => Return tt (mk_world (fs w) (log w ++ [(l, msg)])).

Definition get_fs : M (gmap path inode) := fun w => Return (fs w) w.
Definition put_fs (t : gmap path inode) : M unit :=
  fun w => Return tt (mk_world t (log w)).

(** [for x in xs: body x] *)
Fixpoint for_each {A} (xs : list A) (body : A -> M unit) : M unit :=
  match xs with
  | [] => ret tt
  | x :: xs' => body x ;;; for_each xs' body
  end.

(** ** [pathlib] and [os] over the model *)

(** [k.relative_to(p)]: the components of [k] below [p]. *)
Fixpoint relative_to (p k : path) : option path :=
  match p, k with
  | [], _ => Some k
  | x :: p', y :: k' => if decide (x = y) then relative_to p' k' else None
  | _ :: _, [] => None
  end.

(** The entries of directory [p]: the paths [p / n]. *)
Definition entry_of (p : path) (ki : path * inode) : option (string * inode) :=
  match relative_to p ki.1 with
  | Some [n] => Some (n, ki.2)
  | _ => None
  end.

Definition entries (t : gmap path inode) (p : path) : list (string * inode) :=
  omap (entry_of p) (map_to_list t).

(** Moving the subtree at [src] to [dst]. *)
Definition rebase (src dst : path) (ki : path * inode) : path * inode :=
  match relative_to src ki.1 with
  | Some rest => (dst ++ rest, ki.2)
  | None => ki
  end.

Definition move_subtree (src dst : path) (t : gmap path inode)
  : gmap path inode :=
  list_to_map (rebase src dst <$> map_to_list t).

(** The model keeps no timestamps for directories; the program only calls
    [stat] on paths for which [is_file] has just held. *)
Definition directory_stat : stat_result := mk_stat 0 0 0.

Section Program.

Variable pf : platform.

Definition is_dir (p : path) : M bool := fun w =>
  Return (bool_decide (fs w !! p = Some Directory)) w.

Definition is_file (p : path) : M bool := fun w =>
  Return (match fs w !! p with Some (File _) => true | _ => false end) w.

Definition exists_ (p : path) : M bool := fun w =>
  Return (bool_decide (is_Some (fs w !! p))) w.

Definition stat (p : path) : M stat_result := fun w =>
  match fs w !! p with
  | Some (File st) => Return st w
  | Some Directory => Return directory_stat w
  | None => Raise FileNotFoundError w
  end.

(** [list(os.scandir(p))] *)
Definition scandir (p : path) : M (list (string * inode)) := fun w =>
  match fs w !! p with
  | Some Directory => Return (scandir_order pf (entries (fs w) p)) w
  | Some (File _) => Raise NotADirectoryError w
  | None => Raise FileNotFoundError w
  end.

(** [any(p.iterdir())] *)
Definition any_iterdir (p : path) : M bool :=
  es <- scandir p ;; ret (negb (bool_decide (es = []))).

(** Where a new entry [p] can be made: its parent must be a directory. *)
Definition check_parent (p : path) : M unit := fun w =>
  match fs w !! parent p with
  | Some Directory => Return tt w
  | Some (File _) => Raise NotADirectoryError w
  | None => Raise FileNotFoundError w
  end.

Definition refused (c : syscall) : M unit := fun w =>
  match refuses pf c with
  | Some e => Raise e w
  | None => Return tt w
  end.

(** [os.rename(src, dst)] (POSIX): an existing regular file at [dst] is
    replaced without notice, which is why the program looks first. *)
Definition os_rename (src dst : path) : M unit :=
  refused (Rename src dst) ;;;
  t <- get_fs ;;
  match t !! src with
  | None => raise FileNotFoundError
  | Some (File st) =>
      check_parent dst ;;;
      match t !! dst with
      | Some Directory => raise IsADirectoryError
      | _ => put_fs (<[dst := File st]> (delete src t))
      end
  | Some Directory =>
      check_parent dst ;;;
      if decide (src = dst) then ret tt
      else if bool_decide (is_Some (relative_to src dst))
      then raise (OSError "EINVAL")
      else match t !! dst with
           | Some (File _) => raise NotADirectoryError
           | Some Directory =>
               if bool_decide (entries t dst = [])
               then put_fs (move_subtree src dst t)
               else raise (OSError "ENOTEMPTY")
           | None => put_fs (move_subtree src dst t)
           end
  end.

(** [os.rmdir(p)] *)
Definition os_rmdir (p : path) : M unit :=
  refused (Rmdir p) ;;;
  t <- get_fs ;;
  match t !! p with
  | None => raise FileNotFoundError
  | Some (File _) => raise NotADirectoryError
  | Some Directory =>
      if negb (bool_decide (entries t p = [])) then raise (OSError "ENOTEMPTY")
      else if bool_decide (p = []) then raise (OSError "EBUSY")
      else put_fs (delete p t)
  end.

(** [os.mkdir(p)] *)
Definition os_mkdir (p : path) : M unit :=
  refused (Mkdir p) ;;;
  t <- get_fs ;;
  match t !! p with
  | Some _ => raise FileExistsError
  | None => check_parent p ;;; put_fs (<[p := Directory]> t)
  end.

(** [Path.mkdir(parents=False, exist_ok=exist_ok)]: without [parents] a
    missing parent is an error; any other [OSError] is forgiven when the
    directory is there and [exist_ok] is set. *)
Definition mkdir_no_parents (p : path) (exist_ok : bool) : M unit :=
  try_except (os_mkdir p) (fun e =>
    match e with
    | FileNotFoundError => raise e
    | _ =>
        if is_OSError e then
          d <- is_dir p ;;
          if negb exist_ok || negb d then raise e else ret tt
        else raise e
    end).

(** [Path.mkdir(parents, exist_ok)], by recursion on the path read from its
    last component ([rp] is the reversed path, so that the parent is the
    tail): on [FileNotFoundError] with [parents] set, make the parent with
    [parents=True, exist_ok=True], then try once more without [parents]. *)
Fixpoint mkdir_rev (rp : list string) (parents exist_ok : bool) : M unit :=
  let self := rev rp in
  try_except (os_mkdir self) (fun e =>
    match e with
    | FileNotFoundError =>
        match rp with
        | [] => raise e
        | _ :: rparent =>
            if negb parents then raise e
            else mkdir_rev rparent true true ;;;
                 mkdir_no_parents self exist_ok
        end
    | _ =>
        if is_OSError e then
          d <- is_dir self ;;
          if negb exist_ok || negb d then raise e else ret tt
        else raise e
    end).

Definition mkdir (p : path) (parents exist_ok : bool) : M unit :=
  mkdir_rev (rev p) parents exist_ok.

(** *** [Path.rglob('*')] driving a [for] loop

    [rglob('*')] is a generator (pathlib, CPython 3.8 to 3.11): the selector
    for [**] walks the directories from the top, and for each one of them
    the selector for [*] lists the directory and yields every entry; the
    body of the [for] loop runs at each yield, so it runs before the walk
    lists the directory again to find the subdirectories to descend into.
    No path is yielded twice, so the generator's set of yielded paths is
    left out.  [fuel] bounds the depth of the walk. *)

(** [_WildcardSelector._select_from], the consumer's [body] run at each
    yield. *)
Definition select_from_wildcard (body : path -> M unit) (parent_path : path)
  : M unit :=
  es <- scandir parent_path ;;
  for_each es (fun e => body (parent_path ++ [e.1])).

(** [_RecursiveWildcardSelector._iterate_directories], each [starting_point]
    it yields handed to the successor selector. *)
Fixpoint iterate_directories (fuel : nat) (body : path -> M unit)
    (parent_path : path) : M unit :=
  match fuel with
  | O => running
  | S fuel' =>
      select_from_wildcard body parent_path ;;;
      es <- scandir parent_path ;;
      for_each es (fun e =>
        match e.2 with
        | Directory => iterate_directories fuel' body (parent_path ++ [e.1])
        | File _ => ret tt
        end)
  end.

(** [for p in folder.rglob('*'): body p]; [_Selector.select_from] yields
    nothing when [folder] is not a directory. *)
Definition for_rglob (fuel : nat) (folder : path) (body : path -> M unit)
  : M unit :=
  d <- is_dir folder ;;
  if d then iterate_directories fuel body folder else ret tt.

(** ** [clean_folders] (lines 14 to 30) *)

Definition clean_folders_body (subdir : path) : M unit :=
  d <- is_dir subdir ;;
  nonempty <- (if d then any_iterdir subdir else ret false) ;;
  if d && negb nonempty then
    os_rmdir subdir ;;;
    logger INFO (Deleted_empty_directory subdir)
  else
    logger DEBUG (Not_empty_or_not_a_directory subdir).

Definition clean_folders (fuel : nat) (folder : path) : M unit :=
  for_rglob fuel folder clean_folders_body.

(** ** [move_files] (lines 33 to 66) *)

Definition target_directory_of (folder : path) (modified_time : datetime)
  : path :=
  folder ++ [slice_0_3 (strftime_B modified_time); month_day modified_time].

Definition move_files_body (folder file_path : path) : M unit :=
  f <- is_file file_path ;;
  if f then
    logger INFO (Found_file file_path) ;;;
    st <- stat file_path ;;
    logger INFO (Creation_time (astimezone_LA pf (st_ctime st))) ;;;
    st' <- stat file_path ;;
    let modified_time := astimezone_LA pf (st_mtime st') in
    logger INFO (Modified_time modified_time) ;;;
    let target_directory := target_directory_of folder modified_time in
    let destination_path := target_directory ++ [name file_path] in
    logger INFO (Moving_file file_path destination_path) ;;;
    try_except
      (e <- exists_ destination_path ;;
       if e then logger INFO (File_already_exists destination_path)
       else os_rename file_path destination_path)
      (fun e => logger ERROR (Error_moving_file e))
  else ret tt.

Definition move_files (fuel : nat) (folder : path) (read_target : option path)
  : M unit :=
  let read_target := default folder read_target in
  for_rglob fuel read_target (move_files_body folder).

End Program.

(** ** The three commands *)

Section Commands.

Variable pf : platform.

(** [start + timedelta(days=1)] and [start - timedelta(days=1)] *)
Definition plus_one_day (start : datetime) : M datetime :=
  match add_one_day start with
  | Some d => ret d
  | None => raise OverflowError
  end.

Definition minus_one_day (start : datetime) : M datetime :=
  match sub_one_day start with
  | Some d => ret d
  | None => raise OverflowError
  end.

(** The body shared by the three loops (lines 98 to 102, 138 to 142 and
    180 to 184). *)
Definition ensure_directory (target_directory : path) : M unit :=
  e <- exists_ target_directory ;;
  if e then logger INFO (Directory_already_exists target_directory)
  else
    logger INFO (Creating_directory target_directory) ;;;
    mkdir pf target_directory true true.

Definition year_bucket (folder : path) (start : datetime) : path :=
  folder ++ [str_year start; slice_0_3 (strftime_B start); month_day start].

Definition month_bucket (folder : path) (start : datetime) : path :=
  folder ++ [slice_0_3 (strftime_B start); month_day start].

(** [while start <= today] (lines 96 to 103); the loop returns the value
    of [start] it ends with. *)
Fixpoint all_loop (fuel : nat) (folder : path) (today start : datetime)
  : M datetime :=
  match fuel with
  | O => running
  | S fuel' =>
      if datetime_le start today then
        let target_directory := year_bucket folder start in
        ensure_directory target_directory ;;;
        start <- plus_one_day start ;;
        all_loop fuel' folder today start
      else ret start
  end.

Definition all (fuel : nat) (start : datetime) (folder : path) : M unit :=
  let start := replace_date start 1 1 in
  logger INFO (Organizing_by_year folder) ;;;
  logger INFO (Starting_from_date start) ;;;
  let today := replace_time (datetime_now pf) in
  _ <- all_loop fuel folder today start ;;
  move_files pf fuel folder None ;;;
  clean_folders pf fuel folder.

(** [while start.year < next_year] (lines 136 to 143) *)
Fixpoint year_loop (fuel : nat) (folder : path) (next_year : Z)
    (start : datetime) : M datetime :=
  match fuel with
  | O => running
  | S fuel' =>
      if dt_year start <? next_year then
        let target_directory := year_bucket folder start in
        ensure_directory target_directory ;;;
        start <- plus_one_day start ;;
        year_loop fuel' folder next_year start
      else ret start
  end.

Definition year (fuel : nat) (start : datetime) (folder : path) : M unit :=
  let start := replace_date start 1 1 in
  logger INFO (Organizing_by_year folder) ;;;
  logger INFO (Starting_from_date start) ;;;
  let next_year := dt_year start + 1 in
  start <- year_loop fuel folder next_year start ;;
  start <- minus_one_day start ;;
  let folder := folder ++ [str_year start] in
  move_files pf fuel folder None ;;;
  clean_folders pf fuel folder.

(** [while start.month < next_month] (lines 178 to 185) *)
Fixpoint month_loop (fuel : nat) (folder : path) (next_month : Z)
    (start : datetime) : M datetime :=
  match fuel with
  | O => running
  | S fuel' =>
      if dt_month start <? next_month then
        let target_directory := month_bucket folder start in
        ensure_directory target_directory ;;;
        start <- plus_one_day start ;;
        month_loop fuel' folder next_month start
      else ret start
  end.

Definition month (fuel : nat) (start : datetime) (folder : path) : M unit :=
  let start := replace_day start 1 in
  logger INFO (Organizing_by_month folder) ;;;
  logger INFO (Starting_from_date start) ;;;
  let next_month := dt_month start + 1 in
  start <- month_loop fuel folder next_month start ;;
  start <- minus_one_day start ;;
  move_files pf fuel folder (Some (folder ++ [slice_0_3 (strftime_B start)])) ;;;
  clean_folders pf fuel (folder ++ [slice_0_3 (strftime_B start)]).

End Commands.

(** ** A platform to run the model on

    America/Los_Angeles under the rules in force since 2007: daylight time
    from the second Sunday of March, 02:00 PST, to the first Sunday of
    November, 02:00 PDT.  Timestamps are whole seconds. *)

(** Days between 1970-01-01 and a civil date, and back. *)
Definition days_from_civil (y m d : Z) : Z :=
  let y := if m <=? 2 then y - 1 else y in
  let era := y / 400 in
  let yoe := y - era * 400 in
  let mp := (m + 9) mod 12 in
  let doy := (153 * mp + 2) / 5 + d - 1 in
  let doe := yoe * 365 + yoe / 4 - yoe / 100 + doy in
  era * 146097 + doe - 719468.

Definition civil_from_days (z : Z) : Z * Z * Z :=
  let z := z + 719468 in
  let era := z / 146097 in
  let doe := z - era * 146097 in
  let yoe := (doe - doe / 1460 + doe / 36524 - doe / 146096) / 365 in
  let doy := doe - (365 * yoe + yoe / 4 - yoe / 100) in
  let mp := (5 * doy + 2) / 153 in
  let d := doy - (153 * mp + 2) / 5 + 1 in
  let m := if mp <? 10 then mp + 3 else mp - 9 in
  (if m <=? 2 then yoe + era * 400 + 1 else yoe + era * 400, m, d).

(** The first Sunday on or after day [d] of month [m] (1970-01-01 was a
    Thursday). *)
Definition sunday_from (y m d : Z) : Z :=
  let wd := (days_from_civil y m d + 4) mod 7 in
  days_from_civil y m d + (7 - wd) mod 7.

Definition utc (y m d hh mm ss : Z) : Z :=
  days_from_civil y m d * 86400 + hh * 3600 + mm * 60 + ss.

Definition pacific_offset (ts : Z) : Z :=
  let y := (civil_from_days ((ts - 8 * 3600) / 86400)).1.1 in
  let dst_begin := sunday_from y 3 8 * 86400 + 10 * 3600 in
  let dst_end := sunday_from y 11 1 * 86400 + 9 * 3600 in
  if (dst_begin <=? ts) && (ts <? dst_end) then -7 * 3600 else -8 * 3600.

Definition los_angeles (ts : Z) : datetime :=
  let l := ts + pacific_offset ts in
  let '(y, m, d) := civil_from_days (l / 86400) in
  let s := l mod 86400 in
  mk_datetime y m d (s / 3600) (s mod 3600 / 60) (s mod 60) 0.

(** A platform that refuses nothing and lists directories as the map
    enumerates them; [now] is the wall clock. *)
Definition posix (now : datetime) : platform :=
  mk_platform los_angeles now id (fun _ => None).

(** A platform on which every [rmdir] is denied. *)
Definition posix_rmdir_denied (now : datetime) : platform :=
  mk_platform los_angeles now id
    (fun c => match c with Rmdir _ => Some PermissionError | _ => None end).

Definition date (y m d : Z) : datetime := mk_datetime y m d 0 0 0 0.

Definition empty_log (t : gmap path inode) : world := mk_world t [].


(** * Properties *)

(** ** Paths and directory listings *)

Lemma relative_to_app (p r : path) : relative_to p (p ++ r) = Some r.
Proof.
  induction p as [|x p IH]; simpl; [done|].
  by rewrite decide_True.
Qed.

Lemma relative_to_Some (p k r : path) : relative_to p k = Some r -> k = p ++ r.
Proof.
  revert k; induction p as [|x p IH]; intros [|y k]; simpl; try congruence.
  case_decide; [|done]. intros Hr. apply IH in Hr. by subst.
Qed.

Lemma parent_snoc (p : path) (n : string) : parent (p ++ [n]) = p.
Proof. apply removelast_last. Qed.

Lemma name_snoc (p : path) (n : string) : name (p ++ [n]) = n.
Proof. apply last_last. Qed.

Lemma elem_of_entries (t : gmap path inode) (p : path) n i :
  (n, i) ∈ entries t p <-> t !! (p ++ [n]) = Some i.
Proof.
  unfold entries. rewrite list_elem_of_omap. split.
  - intros [[k j] [Hin He]]. apply elem_of_map_to_list in Hin.
    unfold entry_of in He; simpl in He.
    destruct (relative_to p k) as [[|m [|? ?]]|] eqn:Hr; try done.
    apply relative_to_Some in Hr. by simplify_eq.
  - intros Hl. exists (p ++ [n], i). split.
    + by apply elem_of_map_to_list.
    + unfold entry_of; simpl. by rewrite relative_to_app.
Qed.

Lemma entries_nil (t : gmap path inode) (p : path) :
  entries t p = [] <-> forall n, t !! (p ++ [n]) = None.
Proof.
  split.
  - intros He n. destruct (t !! (p ++ [n])) as [i|] eqn:Hl; [|done].
    apply elem_of_entries in Hl. rewrite He in Hl. by apply elem_of_nil in Hl.
  - intros Hn. destruct (entries t p) as [|[n i] l] eqn:He; [done|].
    assert ((n, i) ∈ entries t p) as Hin by (rewrite He; left).
    apply elem_of_entries in Hin. by rewrite Hn in Hin.
Qed.

(** A platform lists a directory faithfully when [scandir] returns its
    entries, each once, in whatever order. *)
Definition faithful_listing (pf : platform) : Prop :=
  forall l, scandir_order pf l ≡ₚ l.

Lemma posix_faithful now : faithful_listing (posix now).
Proof. intros l. reflexivity. Qed.

Lemma posix_rmdir_denied_faithful now :
  faithful_listing (posix_rmdir_denied now).
Proof. intros l. reflexivity. Qed.

(** ** One file of [move_files] *)

(** Line 57 and 58: the destination of a file, from the folder, the path
    the file was found at and its [stat] record. *)
Definition destination_path (pf : platform) (folder file_path : path)
    (st : stat_result) : path :=
  target_directory_of folder (astimezone_LA pf (st_mtime st))
    ++ [name file_path].

(** The first four records logged for a file. *)
Definition found_records (pf : platform) (folder file_path : path)
    (st : stat_result) : list (level * message) :=
  [(INFO, Found_file file_path);
   (INFO, Creation_time (astimezone_LA pf (st_ctime st)));
   (INFO, Modified_time (astimezone_LA pf (st_mtime st)));
   (INFO, Moving_file file_path (destination_path pf folder file_path st))].

(** The error [os.rename] raises for a regular file and a free
    destination, if any. *)
Definition rename_error (pf : platform) (t : gmap path inode)
    (src dst : path) : option exception :=
  match refuses pf (Rename src dst) with
  | Some e => Some e
  | None =>
      match t !! parent dst with
      | Some Directory => None
      | Some (File _) => Some NotADirectoryError
      | None => Some FileNotFoundError
      end
  end.

(** What the body of the loop does with a regular file: three cases. *)
Lemma move_files_body_file pf folder file_path st w :
  fs w !! file_path = Some (File st) ->
  let dst := destination_path pf folder file_path st in
  let l := log w ++ found_records pf folder file_path st in
  move_files_body pf folder file_path w =
    if bool_decide (is_Some (fs w !! dst))
    then Return tt (mk_world (fs w) (l ++ [(INFO, File_already_exists dst)]))
    else match rename_error pf (fs w) file_path dst with
         | Some e =>
             Return tt (mk_world (fs w) (l ++ [(ERROR, Error_moving_file e)]))
         | None =>
             Return tt (mk_world (<[dst := File st]> (delete file_path (fs w))) l)
         end.
Proof.
  intros Hf dst l. subst dst l.
  unfold move_files_body, bind, is_file, stat, logger, try_except, exists_,
    found_records; simpl.
  repeat (rewrite Hf; simpl).
  fold (destination_path pf folder file_path st).
  set (dst := destination_path pf folder file_path st).
  case_bool_decide as Hex; simpl; [by rewrite <- !app_assoc|].
  unfold os_rename, rename_error, bind, refused, get_fs, check_parent, raise,
    put_fs; simpl.
  destruct (refuses pf (Rename file_path dst)) as [e|]; simpl;
    [by rewrite <- !app_assoc|].
  rewrite Hf; simpl.
  destruct (fs w !! parent dst) as [[?|]|] eqn:Hp; simpl;
    try (by rewrite <- !app_assoc).
  destruct (fs w !! dst) as [i|] eqn:Hd;
    [exfalso; apply Hex; eauto | simpl; by rewrite <- !app_assoc].
Qed.

Lemma move_files_body_other pf folder file_path w :
  (forall st, fs w !! file_path <> Some (File st)) ->
  move_files_body pf folder file_path w = Return tt w.
Proof.
  intros Hn. unfold move_files_body, bind, is_file; simpl.
  destruct (fs w !! file_path) as [[st|]|] eqn:Hl; try done.
  by destruct (Hn st).
Qed.

Lemma well_formed_parent (t : gmap path inode) p i :
  well_formed t -> t !! p = Some i -> t !! parent p = Some Directory.
Proof. intros [_ Hwf] Hl. exact (Hwf p i Hl). Qed.

(** The directories of a tree. *)
Definition directories (t : gmap path inode) : gmap path inode :=
  filter (fun ki => ki.2 = Directory) t.

Lemma directories_lookup (t : gmap path inode) p :
  directories t !! p = Some Directory <-> t !! p = Some Directory.
Proof.
  unfold directories. rewrite map_lookup_filter_Some. simpl. tauto.
Qed.

Lemma directories_rename_file (t : gmap path inode) src dst st :
  t !! src = Some (File st) -> t !! dst = None ->
  directories (<[dst := File st]> (delete src t)) = directories t.
Proof.
  intros Hs Hd. apply map_eq; intros k. apply option_eq; intros i.
  unfold directories. rewrite !map_lookup_filter_Some; simpl.
  destruct (decide (k = dst)) as [->|Hkd].
  { rewrite lookup_insert_eq, Hd. split; intros [? ?]; congruence. }
  rewrite lookup_insert_ne by done.
  destruct (decide (k = src)) as [->|Hks].
  { rewrite lookup_delete_eq, Hs. split; intros [? ?]; congruence. }
  by rewrite lookup_delete_ne.
Qed.

(** The body never raises, and never adds or removes a directory. *)
Lemma move_files_body_returns pf folder file_path w :
  exists w', move_files_body pf folder file_path w = Return tt w' /\
             directories (fs w') = directories (fs w).
Proof.
  destruct (fs w !! file_path) as [[st|]|] eqn:Hl.
  - rewrite (move_files_body_file _ _ _ st) by done.
    case_bool_decide as Hex; [by eexists|].
    destruct (rename_error _ _ _ _); [by eexists|].
    eexists; split; [done|]. simpl.
    apply directories_rename_file; [done|].
    by apply eq_None_not_Some.
  - exists w. split; [|done]. apply move_files_body_other. congruence.
  - exists w. split; [|done]. apply move_files_body_other. congruence.
Qed.

(** ** Trees to run the program on *)

Definition jpg (mtime : Z) (ino : Z) : inode := File (mk_stat mtime 0 ino).

(** [/photos] holds [x.jpg] (modified on 15 March 2024, Pacific time) and
    [y.jpg] (5 May 2024); the bucket [Mar/3-15] already holds another
    [x.jpg], modified on 1 April; the bucket [Apr/4-1] is empty and there is
    no bucket for May. *)
Definition photos_tree : gmap path inode :=
  list_to_map
    [([], Directory);
     (["photos"], Directory);
     (["photos"; "x.jpg"], jpg (utc 2024 3 15 19 0 0) 1);
     (["photos"; "y.jpg"], jpg (utc 2024 5 5 19 0 0) 3);
     (["photos"; "Mar"], Directory);
     (["photos"; "Mar"; "3-15"], Directory);
     (["photos"; "Mar"; "3-15"; "x.jpg"], jpg (utc 2024 4 1 19 0 0) 2);
     (["photos"; "Apr"], Directory);
     (["photos"; "Apr"; "4-1"], Directory)].

(** [/photos/a/b], two nested empty directories. *)
Definition nested_tree : gmap path inode :=
  list_to_map
    [([], Directory);
     (["photos"], Directory);
     (["photos"; "a"], Directory);
     (["photos"; "a"; "b"], Directory)].

(** [/photos] with one file, modified on 2 January 2024. *)
Definition january_tree : gmap path inode :=
  list_to_map
    [([], Directory);
     (["photos"], Directory);
     (["photos"; "x.jpg"], jpg (utc 2024 1 2 20 0 0) 1)].

(** ** C4: a file whose destination exists is left where it is *)

Section Relocator.

Variable pf : platform.
Variable folder : path.

(** C4. When the destination path of a file already exists, the body of
    the loop returns with the tree unchanged (the source stays at its path
    with the same inode, the destination is not touched) and logs the
    conflict as its last record. *)
Theorem conflict_leaves_both_files file_path st w :
  fs w !! file_path = Some (File st) ->
  is_Some (fs w !! destination_path pf folder file_path st) ->
  exists w',
    move_files_body pf folder file_path w = Return tt w' /\
    fs w' = fs w /\
    fs w' !! file_path = Some (File st) /\
    fs w' !! destination_path pf folder file_path st
      = fs w !! destination_path pf folder file_path st /\
    log w' = log w ++ found_records pf folder file_path st
               ++ [(INFO, File_already_exists
                            (destination_path pf folder file_path st))].
Proof.
  intros Hf Hex.
  rewrite (move_files_body_file _ _ _ st) by done.
  rewrite bool_decide_true by done.
  eexists; split; [done|]. simpl. by rewrite <- app_assoc.
Qed.

(** ** C10: the relocator makes no directory *)

(** C10. The body of the loop returns without adding or removing a
    directory; and for a regular file whose bucket directory is not there,
    the tree is unchanged and the last record logged is the error of the
    rename ([FileNotFoundError], unless the platform refused the call with
    another one). *)
Theorem missing_bucket_is_not_created file_path w :
  well_formed (fs w) ->
  exists w',
    move_files_body pf folder file_path w = Return tt w' /\
    directories (fs w') = directories (fs w) /\
    forall st,
      fs w !! file_path = Some (File st) ->
      fs w !! target_directory_of folder (astimezone_LA pf (st_mtime st))
        = None ->
      fs w' = fs w /\
      log w' = log w ++ found_records pf folder file_path st
        ++ [(ERROR, Error_moving_file
               (default FileNotFoundError
                  (refuses pf (Rename file_path
                     (destination_path pf folder file_path st)))))].
Proof.
  intros Hwf.
  destruct (move_files_body_returns pf folder file_path w) as (w' & Hr & Hd).
  exists w'. split; [done|]. split; [done|].
  intros st Hf Ht.
  rewrite (move_files_body_file _ _ _ st) in Hr by done.
  set (dst := destination_path pf folder file_path st) in *.
  assert (parent dst = target_directory_of folder
                         (astimezone_LA pf (st_mtime st))) as Hp
    by apply parent_snoc.
  assert (fs w !! dst = None) as Hdst.
  { destruct (fs w !! dst) as [i|] eqn:Hl; [|done].
    apply (well_formed_parent _ _ _ Hwf) in Hl. congruence. }
  rewrite bool_decide_false in Hr by (rewrite Hdst; by intros [? ?]).
  unfold rename_error in Hr. rewrite Hp, Ht in Hr.
  destruct (refuses pf (Rename file_path dst)); simplify_eq; simpl;
    by rewrite <- app_assoc.
Qed.

(** ** C9: the bucket is computed from the modification time *)

Definition set_ctime (c : Z) (st : stat_result) : stat_result :=
  mk_stat (st_mtime st) c (st_ino st).

Definition is_creation_time (r : level * message) : bool :=
  match r.2 with Creation_time _ => true | _ => false end.

(** C9. Giving the file another creation timestamp changes neither its
    destination path, nor the paths of the resulting tree, nor any record
    logged other than the creation time: the two runs end with the same
    paths, holding the same inodes up to the changed timestamp. *)
Theorem bucket_ignores_creation_time file_path st c w :
  fs w !! file_path = Some (File st) ->
  let w2 := mk_world (<[file_path := File (set_ctime c st)]> (fs w)) (log w) in
  destination_path pf folder file_path (set_ctime c st)
    = destination_path pf folder file_path st /\
  exists r r2,
    move_files_body pf folder file_path w = Return tt r /\
    move_files_body pf folder file_path w2 = Return tt r2 /\
    (forall p, fs r2 !! p = fs r !! p \/
               (fs r !! p = Some (File st) /\
                fs r2 !! p = Some (File (set_ctime c st)))) /\
    List.filter (fun x => negb (is_creation_time x)) (log r2)
      = List.filter (fun x => negb (is_creation_time x)) (log r).
Proof.
  intros Hf w2. split; [done|].
  assert (fs w2 !! file_path = Some (File (set_ctime c st))) as Hf2
    by apply lookup_insert_eq.
  rewrite (move_files_body_file _ _ _ st) by done.
  rewrite (move_files_body_file _ _ _ (set_ctime c st)) by done.
  change (destination_path pf folder file_path (set_ctime c st))
    with (destination_path pf folder file_path st).
  set (dst := destination_path pf folder file_path st).
  assert (forall p, fs w2 !! p = fs w !! p \/
                    (fs w !! p = Some (File st) /\
                     fs w2 !! p = Some (File (set_ctime c st)))) as Hrel.
  { intros p. unfold w2; simpl. destruct (decide (p = file_path)) as [->|].
    - right. by rewrite lookup_insert_eq.
    - left. by rewrite lookup_insert_ne. }
  assert (forall l, List.filter (fun x => negb (is_creation_time x))
            (log w ++ found_records pf folder file_path (set_ctime c st) ++ l)
          = List.filter (fun x => negb (is_creation_time x))
            (log w ++ found_records pf folder file_path st ++ l)) as Hlog.
  { intros l. by rewrite !List.filter_app. }
  assert (is_Some (fs w2 !! dst) <-> is_Some (fs w !! dst)) as Hex.
  { destruct (Hrel dst) as [->|[-> ->]]; [done|]. split; eauto. }
  assert (rename_error pf (fs w2) file_path dst
          = rename_error pf (fs w) file_path dst) as Hre.
  { unfold rename_error. destruct (refuses pf _); [done|].
    by destruct (Hrel (parent dst)) as [->|[-> ->]]. }
  rewrite Hre. rewrite (bool_decide_ext _ _ Hex).
  case_bool_decide.
  { do 2 eexists. split; [done|]. split; [done|]. simpl. split; [done|].
    rewrite <- !app_assoc. apply Hlog. }
  destruct (rename_error pf (fs w) file_path dst).
  { do 2 eexists. split; [done|]. split; [done|]. simpl. split; [done|].
    rewrite <- !app_assoc. apply Hlog. }
  do 2 eexists. split; [done|]. split; [done|]. simpl. split.
  - intros p. unfold w2; simpl. rewrite delete_insert_eq.
    destruct (decide (p = dst)) as [->|].
    + right. by rewrite !lookup_insert_eq.
    + left. by rewrite !lookup_insert_ne.
  - specialize (Hlog []). by rewrite !app_nil_r in Hlog.
Qed.

End Relocator.

Ltac in_log :=
  repeat first [ apply list_elem_of_here | apply list_elem_of_further ].

Lemma conflict_leaves_both_files_witness :
  exists w',
    move_files_body (posix (date 2024 6 1)) ["photos"] ["photos"; "x.jpg"]
      (empty_log photos_tree) = Return tt w' /\
    fs w' = photos_tree /\
    fs w' !! ["photos"; "x.jpg"] = Some (jpg (utc 2024 3 15 19 0 0) 1) /\
    fs w' !! ["photos"; "Mar"; "3-15"; "x.jpg"]
      = photos_tree !! ["photos"; "Mar"; "3-15"; "x.jpg"] /\
    log w' = found_records (posix (date 2024 6 1)) ["photos"]
               ["photos"; "x.jpg"] (mk_stat (utc 2024 3 15 19 0 0) 0 1)
               ++ [(INFO, File_already_exists
                            ["photos"; "Mar"; "3-15"; "x.jpg"])].
Proof.
  apply (conflict_leaves_both_files (posix (date 2024 6 1)) ["photos"]
           ["photos"; "x.jpg"] (mk_stat (utc 2024 3 15 19 0 0) 0 1)
           (empty_log photos_tree)).
  - vm_compute. reflexivity.
  - vm_compute. eexists. reflexivity.
Defined.

Lemma missing_bucket_is_not_created_witness :
  exists w',
    move_files_body (posix (date 2024 6 1)) ["photos"] ["photos"; "y.jpg"]
      (empty_log photos_tree) = Return tt w' /\
    directories (fs w') = directories photos_tree /\
    forall st,
      photos_tree !! ["photos"; "y.jpg"] = Some (File st) ->
      photos_tree !! target_directory_of ["photos"]
                       (los_angeles (st_mtime st)) = None ->
      fs w' = photos_tree /\
      log w' = found_records (posix (date 2024 6 1)) ["photos"]
                 ["photos"; "y.jpg"] st
        ++ [(ERROR, Error_moving_file FileNotFoundError)].
Proof.
  apply (missing_bucket_is_not_created (posix (date 2024 6 1)) ["photos"]
           ["photos"; "y.jpg"] (empty_log photos_tree)).
  refine (bool_decide_unpack _ _). vm_compute. exact I.
Defined.

Lemma bucket_ignores_creation_time_witness :
  let pf := posix (date 2024 6 1) in
  let st := mk_stat (utc 2024 4 1 19 0 0) 0 2 in
  let file_path := ["photos"; "Mar"; "3-15"; "x.jpg"] in
  let w2 := mk_world (<[file_path := File (set_ctime 1700000000 st)]> photos_tree) [] in
  destination_path pf ["photos"] file_path (set_ctime 1700000000 st)
    = destination_path pf ["photos"] file_path st /\
  exists r r2,
    move_files_body pf ["photos"] file_path (empty_log photos_tree)
      = Return tt r /\
    move_files_body pf ["photos"] file_path w2 = Return tt r2 /\
    (forall p, fs r2 !! p = fs r !! p \/
               (fs r !! p = Some (File st) /\
                fs r2 !! p = Some (File (set_ctime 1700000000 st)))) /\
    List.filter (fun x => negb (is_creation_time x)) (log r2)
      = List.filter (fun x => negb (is_creation_time x)) (log r).
Proof.
  apply (bucket_ignores_creation_time (posix (date 2024 6 1)) ["photos"]
           ["photos"; "Mar"; "3-15"; "x.jpg"]
           (mk_stat (utc 2024 4 1 19 0 0) 0 2) 1700000000
           (empty_log photos_tree)).
  vm_compute. reflexivity.
Defined.

(** ** C1: the bucket of the relocator and the skeleton of [all] *)

(** The relocator's bucket never carries the year: it differs from the
    year-qualified bucket of the same date under the same folder. *)
Lemma relocator_bucket_has_no_year folder (t : datetime) :
  target_directory_of folder t <> year_bucket folder t.
Proof.
  unfold target_directory_of, year_bucket. intros H.
  apply (f_equal length) in H. rewrite !length_app in H. simpl in H. lia.
Qed.

(** [year] calls the relocator on [folder / str(year)] and [month] builds
    buckets without the year, so there the two buckets agree. *)
Lemma year_relocator_bucket folder (start t : datetime) :
  dt_year t = dt_year start ->
  target_directory_of (folder ++ [str_year start]) t = year_bucket folder t.
Proof.
  intros Hy. unfold target_directory_of, year_bucket, str_year.
  by rewrite Hy, <- app_assoc.
Qed.

Lemma month_relocator_bucket folder (t : datetime) :
  target_directory_of folder t = month_bucket folder t.
Proof. reflexivity. Qed.

(** C1, on a failing input: [all 2024-01-01 /photos], run on 3 January 2024
    over a folder holding one file modified on 2 January.  The skeleton
    gets [/photos/2024/Jan/1-2]; the relocator aims at [/photos/Jan/1-2],
    which is not there, the rename fails and the file stays in [/photos]. *)
Theorem all_relocates_outside_the_skeleton :
  exists w',
    all (posix (date 2024 1 3)) 10 (date 2024 1 1) ["photos"]
      (empty_log january_tree) = Return tt w' /\
    (INFO, Creating_directory ["photos"; "2024"; "Jan"; "1-2"]) ∈ log w' /\
    (INFO, Moving_file ["photos"; "x.jpg"] ["photos"; "Jan"; "1-2"; "x.jpg"])
      ∈ log w' /\
    (ERROR, Error_moving_file FileNotFoundError) ∈ log w' /\
    fs w' !! ["photos"; "x.jpg"] = Some (jpg (utc 2024 1 2 20 0 0) 1) /\
    fs w' !! ["photos"; "2024"; "Jan"; "1-2"; "x.jpg"] = None.
Proof.
  eexists. split; [vm_compute; reflexivity|]. simpl.
  repeat split; in_log.
Qed.

(** ** C3: one pass of the pruner leaves empty directories behind *)

(** C3, on a failing input: over [/photos/a/b] the first pass meets [a]
    while it still holds [b], skips it, then deletes [b]; [a] is left
    empty, and a second pass deletes it. *)
Theorem pruning_twice_deletes_again :
  exists w1 w2,
    clean_folders (posix (date 2024 6 1)) 10 ["photos"]
      (empty_log nested_tree) = Return tt w1 /\
    log w1 = [(DEBUG, Not_empty_or_not_a_directory ["photos"; "a"]);
              (INFO, Deleted_empty_directory ["photos"; "a"; "b"])] /\
    fs w1 !! ["photos"; "a"] = Some Directory /\
    entries (fs w1) ["photos"; "a"] = [] /\
    clean_folders (posix (date 2024 6 1)) 10 ["photos"]
      (empty_log (fs w1)) = Return tt w2 /\
    log w2 = [(INFO, Deleted_empty_directory ["photos"; "a"])].
Proof.
  do 2 eexists. split; [vm_compute; reflexivity|]. simpl.
  repeat split; vm_compute; reflexivity.
Qed.

(** ** C2: the loop of [month] in December *)

Lemma add_one_day_month (d d' : datetime) :
  add_one_day d = Some d' -> dt_month d <= 12 -> dt_month d' <= 12.
Proof.
  unfold add_one_day. intros H Hm.
  repeat case_match; simplify_eq; simpl; lia.
Qed.

(** With [next_month = 13] the condition [start.month < next_month] holds
    of every date: the loop never leaves through its condition. *)
Lemma month_loop_13 pf fuel folder start w d w' :
  dt_month start <= 12 ->
  month_loop pf fuel folder 13 start w <> Return d w'.
Proof.
  revert start w. induction fuel as [|fuel IH]; intros start w Hm; [done|].
  simpl. rewrite (proj2 (Z.ltb_lt _ _)) by lia.
  unfold bind at 1. destruct (ensure_directory pf _ w) as [[] w1| |]; [|done..].
  unfold bind, plus_one_day.
  destruct (add_one_day start) as [s'|] eqn:Hs; [|done].
  simpl. apply IH. eauto using add_one_day_month.
Qed.

(** C2, on the failing inputs: for a start date in December, [month] does
    not return, whatever the fuel: past 31 December the month is 1, still
    below [next_month = 13], and the loop goes on until a directory cannot
    be made or the calendar overflows. *)
Theorem month_never_returns_in_december pf fuel start folder w w' :
  dt_month start = 12 ->
  month pf fuel start folder w <> Return tt w'.
Proof.
  intros Hm. unfold month. simpl. rewrite Hm. simpl.
  unfold bind at 1. unfold logger at 1.
  unfold bind at 1. unfold logger at 1.
  unfold bind at 1. change (12 + 1) with 13.
  match goal with
  | |- context [month_loop pf fuel folder 13 ?s ?w0] =>
      pose proof (fun d w1 => month_loop_13 pf fuel folder s w0 d w1) as Hl;
      destruct (month_loop pf fuel folder 13 s w0) as [d w1| |]
  end; [|done..].
  exfalso. apply (Hl d w1); [simpl; lia | done].
Qed.

Lemma month_never_returns_in_december_witness :
  month (posix (date 2024 6 1)) 400 (date 2024 12 15) ["photos"]
    (empty_log nested_tree)
  <> Return tt (empty_log nested_tree).
Proof.
  apply (month_never_returns_in_december (posix (date 2024 6 1)) 400
           (date 2024 12 15) ["photos"] (empty_log nested_tree)
           (empty_log nested_tree)).
  reflexivity.
Defined.

(** In December 9999 the loop ends by [OverflowError], after the 31
    buckets of the month. *)
Example month_december_9999 :
  exists w',
    month (posix (date 2024 6 1)) 40 (date 9999 12 25) ["photos"]
      (empty_log nested_tree) = Raise OverflowError w' /\
    fs w' !! ["photos"; "Dec"; "12-31"] = Some Directory.
Proof. eexists. split; vm_compute; reflexivity. Qed.

(** In any other December the loop goes on into January: with a regular
    file in the way at [/photos/Jan], it is the bucket of 1 January that
    fails to be made. *)
Example month_december_2024_goes_on :
  exists w',
    month (posix (date 2024 6 1)) 40 (date 2024 12 25) ["photos"]
      (empty_log (<[ ["photos"; "Jan"] := jpg 0 7 ]> nested_tree))
      = Raise NotADirectoryError w' /\
    fs w' !! ["photos"; "Dec"; "12-31"] = Some Directory /\
    last (log w') = Some (INFO, Creating_directory ["photos"; "Jan"; "1-1"]).
Proof. eexists. split; [|split]; vm_compute; reflexivity. Qed.

(** For a month before December the loop stops where it should: February
    2024 gets its 29 buckets. *)
Example month_february_2024 :
  exists d w',
    month_loop (posix (date 2024 6 1)) 40 ["photos"] 3 (date 2024 2 1)
      (empty_log nested_tree) = Return d w' /\
    d = date 2024 3 1 /\
    fs w' !! ["photos"; "Feb"; "2-29"] = Some Directory /\
    fs w' !! ["photos"; "Feb"; "2-30"] = None /\
    length (log w') = 29%nat.
Proof. do 2 eexists. split; [|repeat split]; vm_compute; reflexivity. Qed.

(** ** Loops under an invariant *)

Lemma for_each_invariant {A} (I : world -> Prop) (xs : list A)
    (body : A -> M unit) :
  (forall x w, x ∈ xs -> I w -> exists w', body x w = Return tt w' /\ I w') ->
  forall w, I w -> exists w', for_each xs body w = Return tt w' /\ I w'.
Proof.
  induction xs as [|x xs IH]; intros Hb w Hw; simpl.
  - by exists w.
  - destruct (Hb x w) as (w1 & Hx & H1); [left | done |].
    unfold bind. rewrite Hx. apply IH; [|done].
    intros y w2 Hy. apply Hb. by right.
Qed.

(** How deep the directories of a tree lie. *)
Definition depth (t : gmap path inode) : nat :=
  max_list (length <$> (map_to_list (directories t)).*1).

Lemma depth_ge (t : gmap path inode) p :
  t !! p = Some Directory -> (length p <= depth t)%nat.
Proof.
  intros Hl. apply max_list_elem_of_le.
  apply list_elem_of_fmap. exists p. split; [done|].
  apply list_elem_of_fmap. exists (p, Directory). split; [done|].
  apply elem_of_map_to_list. by apply directories_lookup.
Qed.

Section Walk.

Variable pf : platform.
Hypothesis listing : faithful_listing pf.

Lemma scandir_directory p w :
  fs w !! p = Some Directory ->
  exists es, scandir pf p w = Return es w /\
             forall n i, (n, i) ∈ es <-> fs w !! (p ++ [n]) = Some i.
Proof.
  intros Hp. unfold scandir. rewrite Hp. eexists; split; [done|].
  intros n i. rewrite (listing _). apply elem_of_entries.
Qed.

(** The walk of [rglob] returns, with any invariant the body keeps, as
    long as the body leaves the directories alone and the fuel covers
    their depth.  [Q] holds of the paths the body is run on. *)
Variable body : path -> M unit.
Variable I : world -> Prop.
Variable Q : path -> Prop.
Variable t0 : gmap path inode.

Hypothesis I_directories :
  forall w, I w -> directories (fs w) = directories t0.
Hypothesis Q_child : forall p n, Q p -> Q (p ++ [n]).
Hypothesis body_returns :
  forall p w, Q p -> I w -> exists w', body p w = Return tt w' /\ I w'.

Lemma I_directory w p :
  I w -> t0 !! p = Some Directory -> fs w !! p = Some Directory.
Proof.
  intros Hw Hp. apply directories_lookup. rewrite (I_directories w Hw).
  by apply directories_lookup.
Qed.

Lemma I_directory_inv w p :
  I w -> fs w !! p = Some Directory -> t0 !! p = Some Directory.
Proof.
  intros Hw Hp. apply directories_lookup. rewrite <- (I_directories w Hw).
  by apply directories_lookup.
Qed.

Lemma iterate_directories_returns fuel p w :
  I w -> Q p -> t0 !! p = Some Directory ->
  (depth t0 < length p + fuel)%nat ->
  exists w', iterate_directories pf fuel body p w = Return tt w' /\ I w'.
Proof.
  revert p w. induction fuel as [|fuel IH]; intros p w Hw Hq Hp Hd.
  { apply depth_ge in Hp. lia. }
  simpl. unfold select_from_wildcard, bind at 1 2.
  destruct (scandir_directory p w) as (es & -> & Hes);
    [by apply I_directory|].
  destruct (for_each_invariant I es (fun e => body (p ++ [e.1]))) with (w := w)
    as (w1 & -> & Hw1); [ | done | ].
  { intros x w2 _ Hw2. apply body_returns; [by apply Q_child | done]. }
  unfold bind.
  destruct (scandir_directory p w1) as (es1 & -> & Hes1);
    [by apply I_directory|].
  apply for_each_invariant; [|done].
  intros [n i] w2 Hin Hw2; simpl. destruct i as [st|]; [by exists w2|].
  apply Hes1 in Hin. apply IH; [done | by apply Q_child | | ].
  - by apply (I_directory_inv w1).
  - rewrite length_app; simpl. lia.
Qed.

Lemma for_rglob_returns fuel p w :
  I w -> Q p -> (depth t0 < fuel)%nat ->
  exists w', for_rglob pf fuel p body w = Return tt w' /\ I w'.
Proof.
  intros Hw Hq Hd. unfold for_rglob, bind, is_dir.
  case_bool_decide as Hp; [|by exists w].
  apply iterate_directories_returns; [done.. | by apply (I_directory_inv w) | lia].
Qed.

End Walk.

(** ** C5: a failed move does not stop the pass *)

Lemma os_rename_file pf src dst st w :
  fs w !! src = Some (File st) -> fs w !! dst = None ->
  os_rename pf src dst w =
    match rename_error pf (fs w) src dst with
    | Some e => Raise e w
    | None => Return tt (mk_world (<[dst := File st]> (delete src (fs w))) (log w))
    end.
Proof.
  intros Hs Hd.
  unfold os_rename, rename_error, bind, refused, get_fs, check_parent, raise,
    put_fs.
  destruct (refuses pf (Rename src dst)); [done|]. rewrite Hs.
  destruct (fs w !! parent dst) as [[?|]|]; try done. by rewrite Hd.
Qed.

(** C5. Whatever the platform refuses: (1) when the rename of a file
    raises [e], the body of the loop returns all the same, with the tree
    as it was and the error as the last record of the log; (2) the whole
    pass returns (given fuel for the depth of the tree), so it goes through
    every file, and no exception leaves it. *)
Theorem move_failure_is_isolated pf folder read_target fuel w :
  faithful_listing pf ->
  (depth (fs w) < fuel)%nat ->
  (forall file_path st w0 e w1,
     fs w0 !! file_path = Some (File st) ->
     fs w0 !! destination_path pf folder file_path st = None ->
     os_rename pf file_path (destination_path pf folder file_path st)
       (mk_world (fs w0) (log w0 ++ found_records pf folder file_path st))
       = Raise e w1 ->
     move_files_body pf folder file_path w0
       = Return tt (mk_world (fs w0)
           (log w0 ++ found_records pf folder file_path st
              ++ [(ERROR, Error_moving_file e)]))) /\
  (exists w', move_files pf fuel folder read_target w = Return tt w' /\
              directories (fs w') = directories (fs w)).
Proof.
  intros Hl Hd. split.
  - intros file_path st w0 e w1 Hf Hdst Hr.
    rewrite (move_files_body_file _ _ _ st) by done.
    rewrite bool_decide_false by (rewrite Hdst; by intros [? ?]).
    rewrite (os_rename_file _ _ _ st) in Hr by done. simpl in Hr.
    destruct (rename_error pf (fs w0) file_path _); simplify_eq.
    by rewrite <- app_assoc.
  - unfold move_files.
    apply (for_rglob_returns pf Hl (move_files_body pf folder)
             (fun w' => directories (fs w') = directories (fs w))
             (fun _ => True) (fs w)); try done.
    intros p w0 _ Hw0.
    destruct (move_files_body_returns pf folder p w0) as (w1 & ? & ?).
    exists w1. split; [done | congruence].
Qed.

Lemma move_failure_is_isolated_witness :
  (forall file_path st w0 e w1,
     fs w0 !! file_path = Some (File st) ->
     fs w0 !! destination_path (posix_rmdir_denied (date 2024 6 1))
                ["photos"] file_path st = None ->
     os_rename (posix_rmdir_denied (date 2024 6 1)) file_path
       (destination_path (posix_rmdir_denied (date 2024 6 1))
          ["photos"] file_path st)
       (mk_world (fs w0)
          (log w0 ++ found_records (posix_rmdir_denied (date 2024 6 1))
                       ["photos"] file_path st))
       = Raise e w1 ->
     move_files_body (posix_rmdir_denied (date 2024 6 1)) ["photos"]
       file_path w0
       = Return tt (mk_world (fs w0)
           (log w0 ++ found_records (posix_rmdir_denied (date 2024 6 1))
                        ["photos"] file_path st
              ++ [(ERROR, Error_moving_file e)]))) /\
  (exists w', move_files (posix_rmdir_denied (date 2024 6 1)) 10 ["photos"]
                None (empty_log photos_tree) = Return tt w' /\
              directories (fs w') = directories photos_tree).
Proof.
  apply (move_failure_is_isolated (posix_rmdir_denied (date 2024 6 1))
           ["photos"] None 10 (empty_log photos_tree)).
  - intros l. reflexivity.
  - vm_compute. lia.
Defined.

(** ** C7: running the relocator again *)

(** Every regular file at or below [read_target] has its destination path
    taken, by itself or by another entry. *)
Definition destinations_taken (pf : platform) (folder read_target : path)
    (t : gmap path inode) : Prop :=
  map_Forall (fun q i =>
    match i with
    | File st => read_target `prefix_of` q ->
                 is_Some (t !! destination_path pf folder q st)
    | Directory => True
    end) t.

Global Instance destinations_taken_dec pf folder read_target t :
  Decision (destinations_taken pf folder read_target t).
Proof.
  unfold destinations_taken. apply map_Forall_dec. intros q [st|]; apply _.
Defined.

Definition info_only (l : list (level * message)) : Prop :=
  Forall (fun r => r.1 = INFO) l.

Lemma destination_path_idem pf folder file_path st :
  destination_path pf folder
    (destination_path pf folder file_path st) st
  = destination_path pf folder file_path st.
Proof. unfold destination_path. by rewrite name_snoc. Qed.

Lemma found_records_info pf folder file_path st :
  info_only (found_records pf folder file_path st).
Proof. unfold info_only, found_records. by repeat constructor. Qed.

(** C7, as the code has it.  (1) A file is moved at most once: after the
    body of the loop has moved a file, the file lies at its destination
    path, which is the destination computed from there too, and at any
    later visit, in this pass or another, the body leaves the tree alone
    and logs no error.  (2) A pass over a tree in which every file at or
    below the read target has its destination taken is a no-op: it
    returns with the tree unchanged and only INFO records added. *)
Theorem relocation_again pf folder read_target fuel w :
  faithful_listing pf ->
  (depth (fs w) < fuel)%nat ->
  (forall file_path st w0 w1,
     fs w0 !! file_path = Some (File st) ->
     move_files_body pf folder file_path w0 = Return tt w1 ->
     fs w1 <> fs w0 ->
     let dst := destination_path pf folder file_path st in
     fs w1 !! dst = Some (File st) /\
     destination_path pf folder dst st = dst /\
     forall w2, fs w2 !! dst = Some (File st) ->
       exists w3 l, move_files_body pf folder dst w2 = Return tt w3 /\
                    fs w3 = fs w2 /\ log w3 = log w2 ++ l /\ info_only l) /\
  (destinations_taken pf folder (default folder read_target) (fs w) ->
   exists w' l, move_files pf fuel folder read_target w = Return tt w' /\
                fs w' = fs w /\ log w' = log w ++ l /\ info_only l).
Proof.
  intros Hl Hd. split.
  - intros file_path st w0 w1 Hf Hb Hne dst.
    rewrite (move_files_body_file _ _ _ st) in Hb by done. fold dst in Hb.
    case_bool_decide; [by simplify_eq|].
    destruct (rename_error pf (fs w0) file_path dst); [by simplify_eq|].
    simplify_eq; simpl.
    split; [apply lookup_insert_eq|].
    split; [apply destination_path_idem|].
    intros w2 Hw2.
    destruct (conflict_leaves_both_files pf folder dst st w2)
      as (w3 & Hb3 & Hfs & _ & _ & Hlog); [done | |].
    { unfold dst. rewrite destination_path_idem. fold dst. eauto. }
    exists w3. eexists. split; [done|]. split; [done|]. split; [done|].
    apply Forall_app. split; [apply found_records_info|].
    by repeat constructor.
  - intros Hocc. unfold move_files.
    destruct (for_rglob_returns pf Hl (move_files_body pf folder)
             (fun w' => fs w' = fs w /\
                        exists l, log w' = log w ++ l /\ info_only l)
             (fun q => default folder read_target `prefix_of` q) (fs w))
      with (fuel := fuel) (p := default folder read_target) (w := w)
      as (w' & Hr & Hfs & l & Hlog & Hinfo); try done.
    + by intros w0 [-> _].
    + intros p n Hp. by apply prefix_app_r.
    + intros p w0 Hp [Hfs (l & Hlog & Hinfo)].
      destruct (fs w0 !! p) as [[st|]|] eqn:Hf.
      * destruct (conflict_leaves_both_files pf folder p st w0)
          as (w3 & Hb3 & Hfs3 & _ & _ & Hlog3); [done | |].
        { rewrite Hfs. rewrite Hfs in Hf. exact (Hocc p (File st) Hf Hp). }
        exists w3. split; [done|]. split; [congruence|].
        eexists. split; [by rewrite Hlog3, Hlog, <- app_assoc|].
        apply Forall_app. split; [done|].
        apply Forall_app. split; [apply found_records_info|].
        by repeat constructor.
      * exists w0. split; [apply move_files_body_other; congruence|]. eauto.
      * exists w0. split; [apply move_files_body_other; congruence|]. eauto.
    + split; [done|]. exists []. rewrite app_nil_r. split; [done | constructor].
    + by exists w', l.
Qed.

(** [/photos] after a pass: one file in its bucket, and a second file of
    the same name and day left in [/photos] by the conflict. *)
Definition sorted_tree : gmap path inode :=
  list_to_map
    [([], Directory);
     (["photos"], Directory);
     (["photos"; "x.jpg"], jpg (utc 2024 3 15 22 0 0) 4);
     (["photos"; "Mar"], Directory);
     (["photos"; "Mar"; "3-15"], Directory);
     (["photos"; "Mar"; "3-15"; "x.jpg"], jpg (utc 2024 3 15 19 0 0) 1)].

Lemma sorted_tree_destinations_taken :
  destinations_taken (posix (date 2024 6 1)) ["photos"] ["photos"] sorted_tree.
Proof. refine (bool_decide_unpack _ _). vm_compute. exact I. Qed.

Lemma relocation_again_witness :
  (forall file_path st w0 w1,
     fs w0 !! file_path = Some (File st) ->
     move_files_body (posix (date 2024 6 1)) ["photos"] file_path w0
       = Return tt w1 ->
     fs w1 <> fs w0 ->
     let dst := destination_path (posix (date 2024 6 1)) ["photos"]
                  file_path st in
     fs w1 !! dst = Some (File st) /\
     destination_path (posix (date 2024 6 1)) ["photos"] dst st = dst /\
     forall w2, fs w2 !! dst = Some (File st) ->
       exists w3 l,
         move_files_body (posix (date 2024 6 1)) ["photos"] dst w2
           = Return tt w3 /\
         fs w3 = fs w2 /\ log w3 = log w2 ++ l /\ info_only l) /\
  (exists w' l,
     move_files (posix (date 2024 6 1)) 10 ["photos"] None
       (empty_log sorted_tree) = Return tt w' /\
     fs w' = sorted_tree /\ log w' = l /\ info_only l).
Proof.
  destruct (relocation_again (posix (date 2024 6 1)) ["photos"] None 10
              (empty_log sorted_tree)) as [Hmoved Hpass].
  - intros l. reflexivity.
  - vm_compute. lia.
  - split; [exact Hmoved | exact (Hpass sorted_tree_destinations_taken)].
Defined.

(** C7 as stated fails: on [photos_tree] the first pass leaves [x.jpg] in
    [/photos] (its destination is taken) and moves the file that took it
    to its own bucket; the second pass then moves [x.jpg], and logs once
    more the error for [y.jpg], which has no bucket. *)
Lemma second_run_moves_and_logs_errors :
  exists w1 w2,
    move_files (posix (date 2024 6 1)) 10 ["photos"] None
      (empty_log photos_tree) = Return tt w1 /\
    move_files (posix (date 2024 6 1)) 10 ["photos"] None
      (empty_log (fs w1)) = Return tt w2 /\
    fs w1 !! ["photos"; "x.jpg"] = Some (jpg (utc 2024 3 15 19 0 0) 1) /\
    fs w2 !! ["photos"; "x.jpg"] = None /\
    fs w2 !! ["photos"; "Mar"; "3-15"; "x.jpg"]
      = Some (jpg (utc 2024 3 15 19 0 0) 1) /\
    fs w2 <> fs w1 /\
    (ERROR, Error_moving_file FileNotFoundError) ∈ log w2.
Proof.
  do 2 eexists. split; [vm_compute; reflexivity|].
  split; [vm_compute; reflexivity|]. simpl.
  split; [vm_compute; reflexivity|].
  split; [vm_compute; reflexivity|].
  split; [vm_compute; reflexivity|].
  split.
  - intros H. apply (f_equal (fun t => t !! ["photos"; "x.jpg"])) in H.
    vm_compute in H. discriminate H.
  - vm_compute. in_log.
Qed.

(** ** C6: a failed [rmdir] in the pruner *)

(** The error [os.rmdir] raises on an empty directory, if any. *)
Definition rmdir_error (pf : platform) (p : path) : option exception :=
  match refuses pf (Rmdir p) with
  | Some e => Some e
  | None => if bool_decide (p = []) then Some (OSError "EBUSY") else None
  end.

Definition is_empty_directory (t : gmap path inode) (p : path) : Prop :=
  t !! p = Some Directory /\ entries t p = [].

Global Instance is_empty_directory_dec t p : Decision (is_empty_directory t p).
Proof. unfold is_empty_directory. apply _. Defined.

Section Pruner.

Variable pf : platform.
Hypothesis listing : faithful_listing pf.

(** What the body of the loop does with a path: three cases.  The call of
    [rmdir] stands in no [try]: its exception leaves the body. *)
Lemma clean_folders_body_cases subdir w :
  clean_folders_body pf subdir w =
    if bool_decide (is_empty_directory (fs w) subdir)
    then match rmdir_error pf subdir with
         | Some e => Raise e w
         | None =>
             Return tt (mk_world (delete subdir (fs w))
                          (log w ++ [(INFO, Deleted_empty_directory subdir)]))
         end
    else Return tt (mk_world (fs w)
           (log w ++ [(DEBUG, Not_empty_or_not_a_directory subdir)])).
Proof.
  unfold clean_folders_body, bind at 1, is_dir.
  case_bool_decide as Hd; simpl.
  - unfold any_iterdir, bind, scandir, ret. rewrite Hd; simpl.
    assert (scandir_order pf (entries (fs w) subdir) = []
            <-> entries (fs w) subdir = []) as Hnil.
    { split; intros H.
      - apply Permutation_nil_r. rewrite <- (listing _). by rewrite H.
      - apply Permutation_nil_r. rewrite (listing _). by rewrite H. }
    case_bool_decide as He; simpl.
    + apply Hnil in He. rewrite bool_decide_true by done.
      unfold os_rmdir, rmdir_error, refused, get_fs, raise, put_fs, logger,
        bind.
      destruct (refuses pf (Rmdir subdir)); [done|]. simpl. rewrite Hd.
      rewrite bool_decide_true by done. simpl.
      by case_bool_decide.
    + rewrite bool_decide_false; [done|]. intros [_ H]. by apply He, Hnil.
  - rewrite bool_decide_false; [done|]. by intros [? _].
Qed.

Lemma is_empty_directory_delete t p q :
  p <> q -> is_empty_directory t q -> is_empty_directory (delete p t) q.
Proof.
  intros Hne [Hq He]. split.
  - by rewrite lookup_delete_ne.
  - apply entries_nil. intros n. apply lookup_delete_None. right.
    by apply entries_nil.
Qed.

(** As long as the empty directory [q] is neither removed nor filled, a
    loop over names that include it ends by an exception. *)
Lemma for_each_meets_refusal parent_path n e (es : list (string * inode)) :
  refuses pf (Rmdir (parent_path ++ [n])) = Some e ->
  n ∈ es.*1 ->
  forall w, is_empty_directory (fs w) (parent_path ++ [n]) ->
  exists e' w',
    for_each es (fun x => clean_folders_body pf (parent_path ++ [x.1])) w
      = Raise e' w' /\
    is_empty_directory (fs w') (parent_path ++ [n]).
Proof.
  intros Href. induction es as [|x es IH]; intros Hin w Hw; simpl in *.
  { by apply elem_of_nil in Hin. }
  unfold bind. rewrite clean_folders_body_cases.
  destruct (decide (x.1 = n)) as [->|Hne].
  - rewrite bool_decide_true by done. unfold rmdir_error. rewrite Href. eauto.
  - apply elem_of_cons in Hin as [?|Hin]; [congruence|].
    case_bool_decide.
    + destruct (rmdir_error pf (parent_path ++ [x.1])); [eauto|].
      apply IH; [done|]. simpl. apply is_empty_directory_delete; [|done].
      intros Heq. by apply app_inj_tail in Heq as [_ ?].
    + by apply IH.
Qed.

(** C6, as the code has it.  When the platform refuses to remove an empty
    directory that lies in [folder], (1) the body of the loop raises the
    refusal at that directory, with tree and log as they were, and (2) the
    pass over [folder] ends by an exception, the directory still there:
    nothing catches it, and the rest of the tree is not visited. *)
Theorem removal_failure_leaves_the_pass folder n e fuel w :
  fs w !! folder = Some Directory ->
  is_empty_directory (fs w) (folder ++ [n]) ->
  refuses pf (Rmdir (folder ++ [n])) = Some e ->
  clean_folders_body pf (folder ++ [n]) w = Raise e w /\
  exists e' w',
    clean_folders pf (S fuel) folder w = Raise e' w' /\
    is_empty_directory (fs w') (folder ++ [n]).
Proof.
  intros Hf He Href. split.
  - rewrite clean_folders_body_cases, bool_decide_true by done.
    unfold rmdir_error. by rewrite Href.
  - unfold clean_folders, for_rglob, bind at 1, is_dir.
    rewrite bool_decide_true by done. simpl.
    unfold select_from_wildcard, bind at 1 2.
    destruct (scandir_directory pf listing folder w) as (es & -> & Hes);
      [done|].
    destruct (for_each_meets_refusal folder n e es Href) with (w := w)
      as (e' & w' & -> & Hw'); [|done|eauto].
    apply list_elem_of_fmap. exists (n, Directory). split; [done|].
    apply Hes. apply He.
Qed.

End Pruner.

Lemma removal_failure_leaves_the_pass_witness :
  clean_folders_body (posix_rmdir_denied (date 2024 6 1))
    ["photos"; "Apr"; "4-1"] (empty_log photos_tree)
    = Raise PermissionError (empty_log photos_tree) /\
  exists e' w',
    clean_folders (posix_rmdir_denied (date 2024 6 1)) 10 ["photos"; "Apr"]
      (empty_log photos_tree) = Raise e' w' /\
    is_empty_directory (fs w') ["photos"; "Apr"; "4-1"].
Proof.
  apply (removal_failure_leaves_the_pass (posix_rmdir_denied (date 2024 6 1))
           (posix_rmdir_denied_faithful (date 2024 6 1))
           ["photos"; "Apr"] "4-1" PermissionError 9
           (empty_log photos_tree)).
  - vm_compute. reflexivity.
  - refine (bool_decide_unpack _ _). vm_compute. exact I.
  - reflexivity.
Defined.

(** C6 as stated fails: with [rmdir] denied, the pass over [/photos/a/b]
    ends by [PermissionError] at [b]; nothing is deleted. *)
Lemma denied_rmdir_leaves_clean_folders :
  clean_folders (posix_rmdir_denied (date 2024 6 1)) 10 ["photos"]
    (empty_log nested_tree)
  = Raise PermissionError
      (mk_world nested_tree
         [(DEBUG, Not_empty_or_not_a_directory ["photos"; "a"])]).
Proof. vm_compute. reflexivity. Qed.

(** ** C8: the skeleton builder *)

(** *** The calendar walked one day at a time *)

(** A key that orders the valid dates as the calendar does. *)
Definition day_key (d : datetime) : Z :=
  372 * dt_year d + 31 * dt_month d + dt_day d.

Lemma days_in_month_bounds y m : 28 <= days_in_month y m <= 31.
Proof. unfold days_in_month. repeat case_match; lia. Qed.

Lemma valid_date_date y m d :
  valid_date (date y m d) <->
  1 <= y <= 9999 /\ 1 <= m <= 12 /\ 1 <= d <= days_in_month y m.
Proof. reflexivity. Qed.

Lemma day_key_inj y m d y' m' d' :
  valid_date (date y m d) -> valid_date (date y' m' d') ->
  day_key (date y m d) = day_key (date y' m' d') ->
  date y m d = date y' m' d'.
Proof.
  rewrite !valid_date_date. unfold day_key; simpl. intros Hv Hv' Hk.
  pose proof (days_in_month_bounds y m).
  pose proof (days_in_month_bounds y' m').
  assert (y = y') by lia. assert (m = m') by lia. assert (d = d') by lia.
  by subst.
Qed.

(** The day after a valid date other than 9999-12-31 is the next valid
    date: there is none in between. *)
Lemma add_one_day_next y m d :
  valid_date (date y m d) ->
  day_key (date y m d) < day_key (date MAXYEAR 12 31) ->
  exists y' m' d',
    add_one_day (date y m d) = Some (date y' m' d') /\
    valid_date (date y' m' d') /\
    day_key (date y m d) < day_key (date y' m' d') /\
    (y' = y \/ (y' = y + 1 /\ m' = 1 /\ d' = 1 /\ m = 12 /\ d = 31)) /\
    forall e, valid_date e -> day_key (date y m d) < day_key e ->
              day_key (date y' m' d') <= day_key e.
Proof.
  rewrite valid_date_date. unfold MAXYEAR. intros (Hy & Hm & Hd) Hmax.
  pose proof (days_in_month_bounds y m) as Hb.
  unfold day_key in Hmax; simpl in Hmax.
  unfold add_one_day; simpl.
  destruct (Z.ltb_spec d (days_in_month y m)) as [Hlt|Hge].
  { exists y, m, (d + 1). split; [done|]. rewrite valid_date_date.
    unfold day_key; simpl.
    split; [lia|]. split; [lia|]. split; [by left|]. intros e _ ?. lia. }
  assert (d = days_in_month y m) as Hdd by lia.
  destruct (Z.ltb_spec m 12) as [Hm12|Hm12].
  { exists y, (m + 1), 1. split; [done|]. rewrite valid_date_date.
    pose proof (days_in_month_bounds y (m + 1)).
    unfold day_key; simpl.
    split; [lia|]. split; [lia|]. split; [by left|].
    intros e (Hey & Hem & Hed) Hk.
    pose proof (days_in_month_bounds (dt_year e) (dt_month e)).
    destruct (decide (dt_year e = y /\ dt_month e = m)) as [[Ey Em]|Hne].
    - rewrite Ey, Em in Hed. lia.
    - lia. }
  assert (m = 12) as -> by lia.
  assert (d = 31) as -> by (rewrite Hdd; reflexivity).
  unfold MAXYEAR. rewrite (proj2 (Z.ltb_lt _ _)) by lia.
  exists (y + 1), 1, 1. split; [done|]. rewrite valid_date_date.
  unfold day_key; simpl.
  split; [lia|]. split; [lia|]. split; [right; lia|].
  intros e (Hey & Hem & Hed) Hk.
  pose proof (days_in_month_bounds (dt_year e) (dt_month e)). lia.
Qed.

(** The dates a loop visits from [start] while [continue] holds, and the
    date it stops at. *)
Inductive visits (continue : datetime -> bool)
  : datetime -> list datetime -> datetime -> Prop :=
  | visits_stop start :
      continue start = false -> visits continue start [] start
  | visits_step start next ds final :
      continue start = true ->
      add_one_day start = Some next ->
      visits continue next ds final ->
      visits continue start (start :: ds) final.

(** From [a] to [b], both valid: when [continue] holds of the dates from
    [a] to [b] and not of the day after [b], the loop visits every date
    from [a] to [b] and stops the day after. *)
Lemma visits_range (continue : datetime -> bool) y' m' d' after :
  valid_date (date y' m' d') ->
  add_one_day (date y' m' d') = Some after ->
  continue after = false ->
  forall (n : nat) y m d,
    valid_date (date y m d) ->
    0 <= day_key (date y' m' d') - day_key (date y m d) <= Z.of_nat n ->
    (forall e, valid_date e -> e = date (dt_year e) (dt_month e) (dt_day e) ->
               day_key (date y m d) <= day_key e <= day_key (date y' m' d') ->
               continue e = true) ->
    exists ds,
      visits continue (date y m d) ds after /\
      (length ds <= S n)%nat /\
      forall e, valid_date e -> e = date (dt_year e) (dt_month e) (dt_day e) ->
                day_key (date y m d) <= day_key e <= day_key (date y' m' d') ->
                e ∈ ds.
Proof.
  intros Hvb Hafter Hstop.
  assert (forall y m d, valid_date (date y m d) ->
            day_key (date y m d) = day_key (date y' m' d') ->
            (forall e, valid_date e ->
               e = date (dt_year e) (dt_month e) (dt_day e) ->
               day_key (date y m d) <= day_key e <= day_key (date y' m' d') ->
               continue e = true) ->
            visits continue (date y m d) [date y m d] after /\
            forall e, valid_date e ->
              e = date (dt_year e) (dt_month e) (dt_day e) ->
              day_key (date y m d) <= day_key e <= day_key (date y' m' d') ->
              e ∈ [date y m d]) as Hlast.
  { intros y m d Hva Hk Hc.
    assert (date y m d = date y' m' d') as Heq by (by apply day_key_inj).
    rewrite Heq in *. split.
    - eapply visits_step; [|done|by constructor]. apply Hc; [done..|lia].
    - intros e Hve He Hke. rewrite He in *.
      rewrite (day_key_inj _ _ _ y' m' d'); [left|done..|lia]. }
  induction n as [|n IH]; intros y m d Hva Hk Hc.
  { destruct (Hlast y m d) as [Hvis Hin]; [done|lia|done|].
    exists [date y m d]. split; [done|]. split; [simpl; lia|done]. }
  destruct (decide (day_key (date y m d) = day_key (date y' m' d')))
    as [Heq|Hne].
  { destruct (Hlast y m d) as [Hvis Hin]; [done..|].
    exists [date y m d]. split; [done|]. split; [simpl; lia|done]. }
  assert (day_key (date y m d) < day_key (date MAXYEAR 12 31)) as Hy.
  { destruct Hvb as (Hyb & Hmb & Hdb).
    pose proof (days_in_month_bounds y' m').
    unfold day_key, MAXYEAR in *; simpl in *. lia. }
  destruct (add_one_day_next y m d Hva Hy)
    as (y1 & m1 & d1 & Hnext & Hv1 & Hlt & _ & Hbetween).
  pose proof (Hbetween (date y' m' d') Hvb ltac:(lia)) as Hle.
  destruct (IH y1 m1 d1) as (ds & Hvis & Hlen & Hin); [done|lia| |].
  { intros e Hve He Hke. apply Hc; [done..|lia]. }
  exists (date y m d :: ds). split; [|split].
  - eapply visits_step; [|done..]. apply Hc; [done..|lia].
  - simpl. lia.
  - intros e Hve He Hke.
    destruct (decide (day_key e = day_key (date y m d))) as [Hek|Hek].
    + rewrite He in *. rewrite (day_key_inj _ _ _ y m d); [left|done..].
    + right. apply Hin; [done..|]. split; [|lia].
      apply Hbetween; [done|lia].
Qed.

(** *** Making directories *)

(** No regular file at [p] or above it. *)
Definition clear_for (t : gmap path inode) (p : path) : Prop :=
  forall q st, q `prefix_of` p -> t !! q <> Some (File st).

(** [t'] is [t] with directories added. *)
Definition grows (t t' : gmap path inode) : Prop :=
  t ⊆ t' /\ forall q i, t' !! q = Some i -> t !! q = None -> i = Directory.

Definition permits_mkdir (pf : platform) : Prop :=
  forall p, refuses pf (Mkdir p) = None.

Lemma grows_refl t : grows t t.
Proof. split; [done|]. intros q i Hq Hn. congruence. Qed.

Lemma grows_trans t1 t2 t3 : grows t1 t2 -> grows t2 t3 -> grows t1 t3.
Proof.
  intros [Hs1 Hd1] [Hs2 Hd2]. split; [by etrans|].
  intros q i Hq Hn. destruct (t2 !! q) as [j|] eqn:Hj.
  - pose proof (lookup_weaken _ _ _ _ Hj Hs2). simplify_eq. eauto.
  - eauto.
Qed.

Lemma grows_insert (t : gmap path inode) p :
  t !! p = None -> grows t (<[p := Directory]> t).
Proof.
  intros Hp. split; [by apply insert_subseteq|].
  intros q i Hq Hn. destruct (decide (p = q)) as [->|].
  - rewrite lookup_insert_eq in Hq. congruence.
  - rewrite lookup_insert_ne in Hq by done. congruence.
Qed.

Lemma grows_lookup t t' q i : grows t t' -> t !! q = Some i -> t' !! q = Some i.
Proof. intros [Hs _] Hq. by eapply lookup_weaken. Qed.

Lemma grows_clear t t' p : grows t t' -> clear_for t p -> clear_for t' p.
Proof.
  intros [Hs Hd] Hc q st Hq Hl. destruct (t !! q) as [i|] eqn:Hi.
  - pose proof (lookup_weaken _ _ _ _ Hi Hs). simplify_eq. by eapply Hc.
  - by specialize (Hd _ _ Hl Hi).
Qed.

Lemma clear_for_prefix t p q : q `prefix_of` p -> clear_for t p -> clear_for t q.
Proof. intros Hq Hc r st Hr. apply Hc. by etrans. Qed.

Section Mkdir.

Variable pf : platform.
Hypothesis permitted : permits_mkdir pf.

Lemma os_mkdir_cases p w :
  os_mkdir pf p w =
    match fs w !! p with
    | Some _ => Raise FileExistsError w
    | None =>
        match fs w !! parent p with
        | Some Directory =>
            Return tt (mk_world (<[p := Directory]> (fs w)) (log w))
        | Some (File _) => Raise NotADirectoryError w
        | None => Raise FileNotFoundError w
        end
    end.
Proof.
  unfold os_mkdir, bind, refused, get_fs, raise, check_parent, put_fs.
  rewrite permitted. destruct (fs w !! p); [done|].
  by destruct (fs w !! parent p) as [[?|]|].
Qed.

(** Without [parents]: the directory is made, or is there already. *)
Lemma mkdir_no_parents_returns p w :
  fs w !! parent p = Some Directory -> clear_for (fs w) p ->
  exists t', mkdir_no_parents pf p true w = Return tt (mk_world t' (log w)) /\
             grows (fs w) t' /\ t' !! p = Some Directory.
Proof.
  intros Hp Hc. unfold mkdir_no_parents, try_except.
  rewrite os_mkdir_cases, Hp.
  destruct (fs w !! p) as [[st|]|] eqn:Hl.
  - destruct (Hc p st); done.
  - simpl. unfold bind, is_dir. rewrite bool_decide_true by done. simpl.
    exists (fs w). destruct w. eauto using grows_refl.
  - eexists. split; [done|]. split; [by apply grows_insert|].
    apply lookup_insert_eq.
Qed.

(** With [parents] and [exist_ok]: the directory and the ancestors it
    lacks are made, as long as the root is there and no regular file is in
    the way. *)
Lemma mkdir_rev_returns rp w :
  fs w !! [] = Some Directory -> clear_for (fs w) (rev rp) ->
  exists t', mkdir_rev pf rp true true w = Return tt (mk_world t' (log w)) /\
             grows (fs w) t' /\ t' !! rev rp = Some Directory.
Proof.
  revert w. induction rp as [|x rp IH]; intros w Hroot Hc.
  - simpl. unfold try_except. rewrite os_mkdir_cases, Hroot. simpl.
    unfold bind, is_dir. rewrite bool_decide_true by done. simpl.
    exists (fs w). destruct w. eauto using grows_refl.
  - cbn [mkdir_rev]. unfold try_except. rewrite os_mkdir_cases.
    cbn [rev]. rewrite parent_snoc.
    destruct (fs w !! (rev rp ++ [x])) as [[st|]|] eqn:Hl.
    + destruct (Hc (rev rp ++ [x]) st); done.
    + simpl. unfold bind, is_dir. rewrite bool_decide_true by done. simpl.
      exists (fs w). destruct w. eauto using grows_refl.
    + destruct (fs w !! rev rp) as [[st|]|] eqn:Hp.
      * destruct (Hc (rev rp) st); [by apply prefix_app_r | done].
      * eexists. split; [done|]. split; [by apply grows_insert|].
        apply lookup_insert_eq.
      * simpl. unfold bind at 1.
        destruct (IH w Hroot) as (t1 & -> & Hg1 & Hd1).
        { eapply clear_for_prefix; [|done]. by apply prefix_app_r. }
        destruct (mkdir_no_parents_returns (rev rp ++ [x]) (mk_world t1 (log w)))
          as (t2 & -> & Hg2 & Hd2); simpl.
        { by rewrite parent_snoc. }
        { by eapply grows_clear. }
        exists t2. eauto using grows_trans.
Qed.

(** Lines 98 to 102: the bucket is there afterwards, a directory; what
    was there before is untouched; one record is logged. *)
Lemma ensure_directory_returns p w :
  fs w !! [] = Some Directory -> clear_for (fs w) p ->
  exists t' r,
    ensure_directory pf p w = Return tt (mk_world t' (log w ++ [(INFO, r)])) /\
    grows (fs w) t' /\ t' !! p = Some Directory.
Proof.
  intros Hroot Hc. unfold ensure_directory, bind at 1, exists_.
  case_bool_decide as Hex; simpl.
  - exists (fs w). eexists. split; [done|]. split; [apply grows_refl|].
    destruct Hex as [[st|] Hi]; [|done]. destruct (Hc p st); done.
  - unfold bind, logger, mkdir.
    destruct (mkdir_rev_returns (rev p)
                (mk_world (fs w) (log w ++ [(INFO, Creating_directory p)])))
      as (t' & -> & Hg & Hd); simpl; rewrite ?rev_involutive; try done.
    rewrite rev_involutive in Hd. eauto.
Qed.

(** When the bucket is there, nothing is made. *)
Lemma ensure_directory_exists p w :
  is_Some (fs w !! p) ->
  ensure_directory pf p w
    = Return tt (mk_world (fs w)
                   (log w ++ [(INFO, Directory_already_exists p)])).
Proof.
  intros Hex. unfold ensure_directory, bind, exists_.
  by rewrite bool_decide_true.
Qed.

End Mkdir.

(** *** The three loops as one *)

Section Skeleton.

Variable pf : platform.

(** The loop of lines 96 to 103, 136 to 143 and 178 to 185, with its
    condition and its bucket as parameters. *)
Fixpoint skeleton_loop (fuel : nat) (continue : datetime -> bool)
    (bucket : datetime -> path) (start : datetime) : M datetime :=
  match fuel with
  | O => running
  | S fuel' =>
      if continue start then
        ensure_directory pf (bucket start) ;;;
        start <- plus_one_day start ;;
        skeleton_loop fuel' continue bucket start
      else ret start
  end.

Lemma all_loop_skeleton fuel folder today start w :
  all_loop pf fuel folder today start w
  = skeleton_loop fuel (fun s => datetime_le s today) (year_bucket folder)
      start w.
Proof.
  revert start w. induction fuel as [|fuel IH]; intros start w; [done|].
  simpl. destruct (datetime_le start today); [|done].
  unfold bind. destruct (ensure_directory pf _ w) as [[] w1| |]; [|done..].
  destruct (plus_one_day start w1); [|done..]. apply IH.
Qed.

Lemma year_loop_skeleton fuel folder next_year start w :
  year_loop pf fuel folder next_year start w
  = skeleton_loop fuel (fun s => dt_year s <? next_year) (year_bucket folder)
      start w.
Proof.
  revert start w. induction fuel as [|fuel IH]; intros start w; [done|].
  simpl. destruct (dt_year start <? next_year); [|done].
  unfold bind. destruct (ensure_directory pf _ w) as [[] w1| |]; [|done..].
  destruct (plus_one_day start w1); [|done..]. apply IH.
Qed.

Lemma month_loop_skeleton fuel folder next_month start w :
  month_loop pf fuel folder next_month start w
  = skeleton_loop fuel (fun s => dt_month s <? next_month)
      (month_bucket folder) start w.
Proof.
  revert start w. induction fuel as [|fuel IH]; intros start w; [done|].
  simpl. destruct (dt_month start <? next_month); [|done].
  unfold bind. destruct (ensure_directory pf _ w) as [[] w1| |]; [|done..].
  destruct (plus_one_day start w1); [|done..]. apply IH.
Qed.

Hypothesis permitted : permits_mkdir pf.

Variable continue : datetime -> bool.
Variable bucket : datetime -> path.

(** A run makes the bucket of every date it visits. *)
Lemma skeleton_loop_builds start ds final :
  visits continue start ds final ->
  forall fuel w,
    (length ds < fuel)%nat ->
    fs w !! [] = Some Directory ->
    (forall d, d ∈ ds -> clear_for (fs w) (bucket d)) ->
    exists t' l,
      skeleton_loop fuel continue bucket start w
        = Return final (mk_world t' (log w ++ l)) /\
      grows (fs w) t' /\
      forall d, d ∈ ds -> t' !! bucket d = Some Directory.
Proof.
  induction 1 as [start Hc|start next ds final Hc Hnext Hvis IH];
    intros [|fuel] w Hfuel Hroot Hclear; simpl in Hfuel; try lia.
  - simpl. rewrite Hc. exists (fs w), []. rewrite app_nil_r. destruct w.
    split; [done|]. split; [apply grows_refl|]. intros d Hd.
    by apply elem_of_nil in Hd.
  - simpl. rewrite Hc. unfold bind at 1.
    destruct (ensure_directory_returns pf permitted (bucket start) w)
      as (t1 & r & -> & Hg1 & Hd1); [done| apply Hclear; left |].
    unfold bind, plus_one_day. rewrite Hnext. simpl.
    destruct (IH fuel (mk_world t1 (log w ++ [(INFO, r)])))
      as (t' & l & -> & Hg & Hd); simpl.
    + lia.
    + by eapply grows_lookup.
    + intros d Hin. eapply grows_clear; [done|]. apply Hclear. by right.
    + exists t', ((INFO, r) :: l). rewrite <- app_assoc. split; [done|].
      split; [by eapply grows_trans|].
      intros d [->|Hin]%elem_of_cons; [|by apply Hd].
      by eapply grows_lookup.
Qed.

(** A run over buckets that are all there makes nothing. *)
Lemma skeleton_loop_again start ds final :
  visits continue start ds final ->
  forall fuel w,
    (length ds < fuel)%nat ->
    (forall d, d ∈ ds -> is_Some (fs w !! bucket d)) ->
    skeleton_loop fuel continue bucket start w
      = Return final
          (mk_world (fs w)
             (log w ++ ((fun d => (INFO, Directory_already_exists (bucket d)))
                          <$> ds))).
Proof.
  induction 1 as [start Hc|start next ds final Hc Hnext Hvis IH];
    intros [|fuel] w Hfuel Hex; simpl in Hfuel; try lia.
  - simpl. rewrite Hc, app_nil_r. by destruct w.
  - simpl. rewrite Hc. unfold bind at 1.
    rewrite ensure_directory_exists by (apply Hex; left).
    unfold bind, plus_one_day. rewrite Hnext. simpl.
    rewrite IH; simpl.
    + by rewrite <- app_assoc.
    + lia.
    + intros d Hd. apply Hex. by right.
Qed.

End Skeleton.

(** *** Building twice *)

(** A calendar date with the time of day at midnight. *)
Definition is_date (d : datetime) : Prop :=
  valid_date d /\ d = date (dt_year d) (dt_month d) (dt_day d).

(** With enough fuel the loop returns; the bucket of every date of the
    range is then a directory, what was in the tree is still there and only
    directories were added; and a second run of the loop, on the tree of
    the first, returns with the same tree and logs only "already exists"
    records. *)
Definition builds_idempotently (loop : nat -> M datetime)
    (bucket : datetime -> path) (range : datetime -> Prop) (w : world)
  : Prop :=
  exists fuel0 final, forall fuel, (fuel0 <= fuel)%nat ->
    exists w1,
      loop fuel w = Return final w1 /\
      grows (fs w) (fs w1) /\
      (forall d, range d -> fs w1 !! bucket d = Some Directory) /\
      exists l,
        loop fuel w1 = Return final (mk_world (fs w1) (log w1 ++ l)) /\
        Forall (fun r => exists d,
                  r = (INFO, Directory_already_exists (bucket d))) l.

Lemma builds_idempotently_ext loop loop' bucket range range' w :
  (forall fuel w', loop fuel w' = loop' fuel w') ->
  (forall d, range d -> range' d) ->
  builds_idempotently loop' bucket range' w ->
  builds_idempotently loop bucket range w.
Proof.
  intros Hloop Hrange (fuel0 & final & H). exists fuel0, final.
  intros fuel Hfuel. destruct (H fuel Hfuel) as (w1 & H1 & Hg & Hd & l & H2 & Hl).
  exists w1. rewrite !Hloop. eauto 10.
Qed.

Lemma visits_builds_idempotently pf continue bucket start ds final w :
  permits_mkdir pf ->
  visits continue start ds final ->
  fs w !! [] = Some Directory ->
  (forall d, clear_for (fs w) (bucket d)) ->
  builds_idempotently (fun fuel => skeleton_loop pf fuel continue bucket start)
    bucket (fun d => d ∈ ds) w.
Proof.
  intros Hp Hvis Hroot Hclear. exists (S (length ds)), final.
  intros fuel Hfuel.
  destruct (skeleton_loop_builds pf Hp continue bucket start ds final Hvis
              fuel w) as (t' & l & H1 & Hg & Hd); [lia|done|by eauto|].
  eexists. split; [done|]. simpl. split; [done|]. split; [done|].
  eexists. split.
  - apply (skeleton_loop_again pf continue bucket start ds final Hvis);
      [lia|]. simpl. intros d Hin. rewrite Hd by done. eauto.
  - apply Forall_fmap, Forall_forall. intros d _. simpl. eauto.
Qed.

(** Comparison of dates, through the key. *)
Lemma datetime_le_key y m d y' m' d' :
  valid_date (date y m d) -> valid_date (date y' m' d') ->
  datetime_le (date y m d) (date y' m' d') = true
  <-> day_key (date y m d) <= day_key (date y' m' d').
Proof.
  intros (Hy & Hm & Hd) (Hy' & Hm' & Hd'). simpl in *.
  pose proof (days_in_month_bounds y m).
  pose proof (days_in_month_bounds y' m').
  unfold datetime_le, datetime_key, day_key; simpl.
  destruct (Z.ltb_spec y y'), (Z.eqb_spec y y'), (Z.ltb_spec m m'),
    (Z.eqb_spec m m'), (Z.ltb_spec d d'), (Z.eqb_spec d d'); simpl;
    split; intros; try done; lia.
Qed.

Lemma is_date_eq d :
  is_date d -> exists y m dd, d = date y m dd /\ valid_date (date y m dd).
Proof. intros [Hv He]. rewrite He in Hv. eauto. Qed.



Section Builder.

Variable pf : platform.
Variable folder : path.
Hypothesis permitted : permits_mkdir pf.




End Builder.

(** A tree without regular files is clear for every bucket. *)
Definition no_regular_file (t : gmap path inode) : Prop :=
  map_Forall (fun _ i => i = Directory) t.

Global Instance no_regular_file_dec t : Decision (no_regular_file t).
Proof. unfold no_regular_file. apply _. Defined.

Lemma no_regular_file_clear t p : no_regular_file t -> clear_for t p.
Proof. intros Hn q st _ Hq. by specialize (Hn q _ Hq). Qed.


(** ** The loop of [month] before December *)

Section MonthBuilder.

Variable pf : platform.
Variable folder : path.
Hypothesis permitted : permits_mkdir pf.

(** For a start date in January to November, the loop of [month] returns
    (given fuel for the days of the month); every day of that month, from
    day 1 to the last one by the calendar (29 February in a leap year),
    then has its year-less bucket, a directory; what the tree held is
    untouched; and a second run makes nothing. *)
Theorem month_builder_is_idempotent start w :
  valid_date start -> dt_month start < 12 ->
  fs w !! [] = Some Directory ->
  (forall d, clear_for (fs w) (month_bucket folder d)) ->
  let first := replace_day start 1 in
  builds_idempotently
    (fun fuel => month_loop pf fuel folder (dt_month first + 1) first)
    (month_bucket folder)
    (fun d => is_date d /\ dt_year d = dt_year start /\
              dt_month d = dt_month start) w.
Proof.
  intros (Hy & Hm & _) Hm12 Hroot Hclear first.
  destruct start as [y m d0 ? ? ? ?]; simpl in *. subst first.
  unfold replace_day; simpl. fold (date y m 1).
  pose proof (days_in_month_bounds y m) as Hb.
  unfold MINYEAR, MAXYEAR in *.
  destruct (visits_range (fun s => dt_month s <? m + 1) y m
              (days_in_month y m) (date y (m + 1) 1))
    with (n := 30%nat) (y := y) (m := m) (d := 1)
    as (ds & Hvis & _ & Hin).
  - repeat split; simpl; unfold MINYEAR, MAXYEAR; lia.
  - unfold add_one_day; simpl. rewrite Z.ltb_irrefl.
    by rewrite (proj2 (Z.ltb_lt m 12)) by lia.
  - simpl. apply Z.ltb_irrefl.
  - repeat split; simpl; unfold MINYEAR, MAXYEAR; lia.
  - unfold day_key; simpl. lia.
  - intros e (Hey & Hem & Hed) _ Hk.
    pose proof (days_in_month_bounds (dt_year e) (dt_month e)).
    unfold day_key in Hk; simpl in Hk. apply Z.ltb_lt. lia.
  - eapply (builds_idempotently_ext _
              (fun fuel => skeleton_loop pf fuel (fun s => dt_month s <? m + 1)
                             (month_bucket folder) (date y m 1))
              _ _ (fun d => d ∈ ds));
      [intros; apply month_loop_skeleton | |
       by eapply visits_builds_idempotently].
    intros d ([Hv Hd] & Hdy & Hdm). apply Hin; [done..|].
    destruct Hv as (Hey & Hem & Hed). rewrite Hdy, Hdm in Hed.
    unfold day_key; simpl. lia.
Qed.

End MonthBuilder.

Lemma month_builder_is_idempotent_witness :
  builds_idempotently
    (fun fuel => month_loop (posix (date 2024 6 1)) fuel ["photos"]
                   (2 + 1) (date 2024 2 1))
    (month_bucket ["photos"])
    (fun d => is_date d /\ dt_year d = 2024 /\ dt_month d = 2)
    (empty_log nested_tree).
Proof.
  apply (month_builder_is_idempotent (posix (date 2024 6 1)) ["photos"]
           (fun p => eq_refl) (date 2024 2 15) (empty_log nested_tree)).
  - vm_compute. intuition discriminate.
  - reflexivity.
  - vm_compute. reflexivity.
  - intros d. apply no_regular_file_clear.
    refine (bool_decide_unpack _ _). vm_compute. exact I.
Defined.

(** ** The loop of [year] in the last year of the calendar *)

Lemma add_one_day_year (d d' : datetime) :
  add_one_day d = Some d' -> dt_year d <= MAXYEAR -> dt_year d' <= MAXYEAR.
Proof.
  unfold add_one_day. intros H Hy.
  repeat case_match; simplify_eq; simpl; lia.
Qed.

Lemma year_loop_past_the_calendar pf fuel folder start w d w' :
  dt_year start <= MAXYEAR ->
  year_loop pf fuel folder (MAXYEAR + 1) start w <> Return d w'.
Proof.
  revert start w. induction fuel as [|fuel IH]; intros start w Hy; [done|].
  simpl. rewrite (proj2 (Z.ltb_lt _ _)) by lia.
  unfold bind at 1. destruct (ensure_directory pf _ w) as [[] w1| |]; [|done..].
  unfold bind, plus_one_day.
  destruct (add_one_day start) as [s'|] eqn:Hs; [|done].
  simpl. apply IH. eauto using add_one_day_year.
Qed.

(** For a start date in year 9999, [year] does not return: the condition
    [start.year < next_year] holds of every date a [datetime] can hold, so
    the loop ends by an exception ([OverflowError] past 31 December, or a
    failed [mkdir]) and the files are never relocated. *)
Theorem year_never_returns_in_9999 pf fuel start folder w w' :
  dt_year start = MAXYEAR ->
  year pf fuel start folder w <> Return tt w'.
Proof.
  intros Hy. unfold year. simpl. rewrite Hy.
  unfold bind at 1. unfold logger at 1.
  unfold bind at 1. unfold logger at 1.
  unfold bind at 1.
  match goal with
  | |- context [year_loop pf fuel folder ?n ?s ?w0] =>
      pose proof (fun d w1 =>
                    year_loop_past_the_calendar pf fuel folder s w0 d w1) as Hl;
      destruct (year_loop pf fuel folder n s w0) as [d w1| |]
  end; [|done..].
  exfalso. apply (Hl d w1); [simpl; lia | done].
Qed.

Lemma year_never_returns_in_9999_witness :
  year (posix (date 2024 6 1)) 400 (date 9999 3 1) ["photos"]
    (empty_log nested_tree)
  <> Return tt (empty_log nested_tree).
Proof.
  apply (year_never_returns_in_9999 (posix (date 2024 6 1)) 400
           (date 9999 3 1) ["photos"] (empty_log nested_tree)
           (empty_log nested_tree)).
  reflexivity.
Defined.

(** ** What a relocation pass keeps *)

(** The entries of a tree without their directory: name and inode. *)
Definition holdings (t : gmap path inode) : list (string * inode) :=
  (fun ki => (name ki.1, ki.2)) <$> map_to_list t.

Lemma holdings_rename_file (t : gmap path inode) src dst st :
  t !! src = Some (File st) -> t !! dst = None -> name dst = name src ->
  holdings (<[dst := File st]> (delete src t)) ≡ₚ holdings t.
Proof.
  intros Hs Hd Hn. unfold holdings.
  rewrite map_to_list_insert by (by apply lookup_delete_None; right).
  rewrite <- (insert_delete_id t src (File st)) at 2 by done.
  rewrite (map_to_list_insert (delete src t) src) by apply lookup_delete_eq.
  simpl. by rewrite Hn.
Qed.

Lemma move_files_body_keeps pf folder file_path w :
  exists w', move_files_body pf folder file_path w = Return tt w' /\
             holdings (fs w') ≡ₚ holdings (fs w).
Proof.
  destruct (fs w !! file_path) as [[st|]|] eqn:Hl.
  - rewrite (move_files_body_file _ _ _ st) by done.
    case_bool_decide as Hex; [by eexists|].
    destruct (rename_error _ _ _ _); [by eexists|].
    eexists; split; [done|]. simpl.
    apply holdings_rename_file; [done| by apply eq_None_not_Some |].
    apply name_snoc.
  - exists w. split; [|done]. apply move_files_body_other. congruence.
  - exists w. split; [|done]. apply move_files_body_other. congruence.
Qed.

(** A pass of [move_files] loses nothing and duplicates nothing: it
    returns (given fuel for the depth of the tree) with the same entries
    up to their place, each under its name and with its inode (timestamps
    and inode number), and with the same directories at the same paths. *)
Theorem relocation_keeps_every_entry pf folder read_target fuel w :
  faithful_listing pf ->
  (depth (fs w) < fuel)%nat ->
  exists w', move_files pf fuel folder read_target w = Return tt w' /\
             holdings (fs w') ≡ₚ holdings (fs w) /\
             directories (fs w') = directories (fs w).
Proof.
  intros Hl Hd. unfold move_files.
  destruct (for_rglob_returns pf Hl (move_files_body pf folder)
             (fun w' => holdings (fs w') ≡ₚ holdings (fs w) /\
                        directories (fs w') = directories (fs w))
             (fun _ => True) (fs w))
    with (fuel := fuel) (p := default folder read_target) (w := w)
    as (w' & Hr & Hh & Hdirs); try done.
  - by intros w0 [_ ?].
  - intros p w0 _ [Hh0 Hd0].
    destruct (move_files_body_keeps pf folder p w0) as (w1 & Hb & Hh1).
    destruct (move_files_body_returns pf folder p w0) as (w1' & Hb' & Hd1).
    rewrite Hb in Hb'. injection Hb' as <-.
    exists w1. split; [done|]. split; [by etrans | congruence].
  - by exists w'.
Qed.

Lemma relocation_keeps_every_entry_witness :
  exists w', move_files (posix (date 2024 6 1)) 10 ["photos"] None
               (empty_log photos_tree) = Return tt w' /\
             holdings (fs w') ≡ₚ holdings photos_tree /\
             directories (fs w') = directories photos_tree.
Proof.
  apply (relocation_keeps_every_entry (posix (date 2024 6 1)) ["photos"]
           None 10 (empty_log photos_tree)).
  - intros l. reflexivity.
  - vm_compute. lia.
Defined.

(** The move that succeeds: for a regular file whose bucket is a directory
    and whose destination is free, on a platform that lets the rename
    through, the body of the loop puts the file at the destination (the
    bucket joined with the file's own name) with its inode as it was,
    leaves nothing at the old path, touches no other path and logs neither
    a conflict nor an error. *)
Theorem file_moves_into_its_bucket pf folder file_path st w :
  fs w !! file_path = Some (File st) ->
  fs w !! target_directory_of folder (astimezone_LA pf (st_mtime st))
    = Some Directory ->
  fs w !! destination_path pf folder file_path st = None ->
  refuses pf (Rename file_path (destination_path pf folder file_path st))
    = None ->
  exists w',
    move_files_body pf folder file_path w = Return tt w' /\
    fs w' !! destination_path pf folder file_path st = Some (File st) /\
    fs w' !! file_path = None /\
    name (destination_path pf folder file_path st) = name file_path /\
    (forall q, q <> file_path ->
               q <> destination_path pf folder file_path st ->
               fs w' !! q = fs w !! q) /\
    log w' = log w ++ found_records pf folder file_path st.
Proof.
  intros Hf Ht Hd Href.
  rewrite (move_files_body_file _ _ _ st) by done.
  set (dst := destination_path pf folder file_path st) in *.
  rewrite bool_decide_false by (rewrite Hd; by intros [? ?]).
  unfold rename_error. rewrite Href.
  assert (parent dst = target_directory_of folder
                         (astimezone_LA pf (st_mtime st))) as ->
    by apply parent_snoc.
  rewrite Ht. eexists. split; [done|]. simpl.
  assert (dst <> file_path) as Hne by congruence.
  split; [apply lookup_insert_eq|].
  split; [by rewrite lookup_insert_ne, lookup_delete_eq|].
  split; [apply name_snoc|].
  split; [|done].
  intros q Hq1 Hq2. by rewrite lookup_insert_ne, lookup_delete_ne.
Qed.

Lemma file_moves_into_its_bucket_witness :
  exists w',
    move_files_body (posix (date 2024 6 1)) ["photos"]
      ["photos"; "Mar"; "3-15"; "x.jpg"] (empty_log photos_tree)
      = Return tt w' /\
    fs w' !! ["photos"; "Apr"; "4-1"; "x.jpg"]
      = Some (jpg (utc 2024 4 1 19 0 0) 2) /\
    fs w' !! ["photos"; "Mar"; "3-15"; "x.jpg"] = None /\
    name ["photos"; "Apr"; "4-1"; "x.jpg"] = "x.jpg" /\
    (forall q, q <> ["photos"; "Mar"; "3-15"; "x.jpg"] ->
               q <> ["photos"; "Apr"; "4-1"; "x.jpg"] ->
               fs w' !! q = photos_tree !! q) /\
    log w' = found_records (posix (date 2024 6 1)) ["photos"]
               ["photos"; "Mar"; "3-15"; "x.jpg"]
               (mk_stat (utc 2024 4 1 19 0 0) 0 2).
Proof.
  apply (file_moves_into_its_bucket (posix (date 2024 6 1)) ["photos"]
           ["photos"; "Mar"; "3-15"; "x.jpg"]
           (mk_stat (utc 2024 4 1 19 0 0) 0 2) (empty_log photos_tree)).
  - vm_compute. reflexivity.
  - vm_compute. reflexivity.
  - vm_compute. reflexivity.
  - reflexivity.
Defined.

(** ** What a pruning pass removes and what it keeps *)

Definition strictly_below (p q : path) : Prop :=
  exists r, r <> [] /\ q = p ++ r.

(** [t] is [t0] less some directories that lay below [p]; it is
    well-formed if [t0] was. *)
Definition pruned_from (p : path) (t0 t : gmap path inode) : Prop :=
  t ⊆ t0 /\
  (forall q i, t0 !! q = Some i -> t !! q = None ->
               i = Directory /\ strictly_below p q) /\
  (well_formed t0 -> well_formed t).

Definition permits_rmdir (pf : platform) : Prop :=
  forall p, refuses pf (Rmdir p) = None.

Definition empty_or_gone (t : gmap path inode) (q : path) : Prop :=
  is_empty_directory t q \/ t !! q = None.

Lemma strictly_below_child p n q :
  strictly_below (p ++ [n]) q -> strictly_below p q.
Proof.
  intros (r & Hr & ->). exists (n :: r). split; [done|].
  by rewrite <- app_assoc.
Qed.

Lemma strictly_below_irrefl p : ~ strictly_below p p.
Proof.
  intros (r & Hr & Heq). apply Hr.
  rewrite <- (app_nil_r p) in Heq at 1. by apply app_inv_head in Heq.
Qed.

Lemma strictly_below_sibling p m n : ~ strictly_below (p ++ [m]) (p ++ [n]).
Proof.
  intros (r & Hr & Heq). rewrite <- app_assoc in Heq.
  apply app_inv_head in Heq. destruct r; [done|]. discriminate Heq.
Qed.

Lemma pruned_from_refl p t : pruned_from p t t.
Proof. split; [done|]. split; [|done]. intros q i Hq Hn. congruence. Qed.

Lemma pruned_from_trans p p' t0 t1 t2 :
  (forall q, strictly_below p' q -> strictly_below p q) ->
  pruned_from p t0 t1 -> pruned_from p' t1 t2 -> pruned_from p t0 t2.
Proof.
  intros Hpp (Hs1 & Hr1 & Hw1) (Hs2 & Hr2 & Hw2).
  split; [by etrans|]. split; [|by eauto].
  intros q i Hq Hn. destruct (t1 !! q) as [j|] eqn:Hj; [|by eauto].
  pose proof (lookup_weaken _ _ _ _ Hj Hs1). simplify_eq.
  destruct (Hr2 q i Hj Hn). eauto.
Qed.

Lemma path_parent_name (k : path) : k <> [] -> k = parent k ++ [name k].
Proof. intros Hk. by apply app_removelast_last. Qed.

Lemma well_formed_delete (t : gmap path inode) q :
  q <> [] -> well_formed t -> is_empty_directory t q ->
  well_formed (delete q t).
Proof.
  intros Hq [Hroot Hwf] [Hd He]. split.
  - by rewrite lookup_delete_ne.
  - intros k i Hk. apply lookup_delete_Some in Hk as [Hkq Hk].
    rewrite lookup_delete_ne; [by eapply Hwf|].
    intros Heq. destruct (decide (k = [])) as [->|Hne].
    + simpl in Heq. congruence.
    + rewrite (path_parent_name k Hne), <- Heq in Hk.
      apply elem_of_entries in Hk. rewrite He in Hk.
      by apply elem_of_nil in Hk.
Qed.

Lemma pruned_from_delete (p : path) (n : string) (t : gmap path inode) :
  is_empty_directory t (p ++ [n]) -> pruned_from p t (delete (p ++ [n]) t).
Proof.
  intros He. split; [apply delete_subseteq|]. split.
  - intros q i Hq Hn. apply lookup_delete_None in Hn as [<-|Hn]; [|congruence].
    destruct He as [Hd _]. split; [congruence|]. by exists [n].
  - intros Hwf. apply well_formed_delete; [|done..]. by destruct p.
Qed.

Lemma empty_or_gone_subseteq (t t' : gmap path inode) q :
  t' ⊆ t -> empty_or_gone t q -> empty_or_gone t' q.
Proof.
  intros Hs HT. destruct (t' !! q) as [i|] eqn:Hi; [|by right].
  left. pose proof (lookup_weaken _ _ _ _ Hi Hs) as Hq.
  destruct HT as [[Hd He]|Hn]; [|congruence]. split; [congruence|].
  apply entries_nil. intros n.
  destruct (t' !! (q ++ [n])) as [j|] eqn:Hj; [|done].
  pose proof (lookup_weaken _ _ _ _ Hj Hs) as Hqn.
  rewrite (proj1 (entries_nil t q) He n) in Hqn. done.
Qed.

Lemma gone_subseteq (t t' : gmap path inode) q :
  t' ⊆ t -> t !! q = None -> t' !! q = None.
Proof.
  intros Hs Hn. destruct (t' !! q) as [i|] eqn:Hi; [|done].
  pose proof (lookup_weaken _ _ _ _ Hi Hs). congruence.
Qed.

Lemma well_formed_ancestor (t : gmap path inode) c rest i :
  well_formed t -> rest <> [] -> t !! (c ++ rest) = Some i ->
  t !! c = Some Directory.
Proof.
  intros Hwf. revert i. induction rest as [|x r IH] using rev_ind;
    intros i Hne Hl; [done|].
  rewrite app_assoc in Hl. apply (well_formed_parent _ _ _ Hwf) in Hl.
  rewrite parent_snoc in Hl. destruct r as [|y r'].
  - by rewrite app_nil_r in Hl.
  - by eapply IH.
Qed.

(** A loop whose body returns under an invariant: the loop returns, and a
    property that the steps keep and that the step on some element
    establishes holds in the end. *)
Lemma for_each_reaches {A} (I : world -> Prop) (xs : list A)
    (body : A -> M unit) :
  (forall x w, x ∈ xs -> I w -> exists w', body x w = Return tt w' /\ I w') ->
  forall w, I w ->
  exists w',
    for_each xs body w = Return tt w' /\ I w' /\
    forall P : world -> Prop,
      (forall x w1 w2, x ∈ xs -> I w1 -> body x w1 = Return tt w2 ->
                       P w1 -> P w2) ->
      (P w -> P w') /\
      (forall x0, x0 ∈ xs ->
         (forall w1 w2, I w1 -> body x0 w1 = Return tt w2 -> P w2) -> P w').
Proof.
  induction xs as [|x xs IH]; intros Hb w Hw; simpl.
  - exists w. split; [done|]. split; [done|]. intros P _. split; [done|].
    intros x0 Hx0. by apply elem_of_nil in Hx0.
  - destruct (Hb x w) as (w1 & Hx & H1); [left | done |].
    destruct (IH (fun y w2 Hy => Hb y w2 (list_elem_of_further _ _ _ Hy)) w1 H1)
      as (w' & Hrun & Hw' & HP).
    exists w'. unfold bind. rewrite Hx. split; [done|]. split; [done|].
    intros P Hstable.
    destruct (HP P) as [Hkeep Hreach].
    { intros y w2 w3 Hy. apply Hstable. by right. }
    split.
    + intros HPw. apply Hkeep. apply (Hstable x w w1); [left|done..].
    + intros x0 [->|Hx0]%elem_of_cons Hest.
      * apply Hkeep. by apply (Hest w w1).
      * by apply (Hreach x0).
Qed.

Section PruningPass.

Variable pf : platform.
Hypothesis listing : faithful_listing pf.
Hypothesis permitted : permits_rmdir pf.

(** The body of the loop on an entry of [p], when [rmdir] goes through:
    it removes the entry if it is an empty directory and nothing else. *)
Lemma clean_folders_body_prunes (p : path) (n : string) w :
  exists w',
    clean_folders_body pf (p ++ [n]) w = Return tt w' /\
    pruned_from p (fs w) (fs w') /\
    (empty_or_gone (fs w) (p ++ [n]) -> fs w' !! (p ++ [n]) = None).
Proof.
  rewrite (clean_folders_body_cases pf listing).
  case_bool_decide as He.
  - unfold rmdir_error. rewrite permitted.
    rewrite bool_decide_false by (by destruct p).
    eexists. split; [done|]. simpl. split; [by apply pruned_from_delete|].
    intros _. apply lookup_delete_eq.
  - eexists. split; [done|]. simpl. split; [apply pruned_from_refl|].
    by intros [?|?].
Qed.

Lemma iterate_directories_prunes fuel :
  forall p w,
    fs w !! p = Some Directory ->
    (forall q, fs w !! q = Some Directory -> (length q < length p + fuel)%nat) ->
    exists w',
      iterate_directories pf fuel (clean_folders_body pf) p w = Return tt w' /\
      pruned_from p (fs w) (fs w') /\
      forall q, well_formed (fs w) -> strictly_below p q ->
                empty_or_gone (fs w) q -> fs w' !! q = None.
Proof.
  induction fuel as [|fuel IH]; intros p w Hp Hbound.
  { specialize (Hbound p Hp). lia. }
  (* what the walk of a subdirectory does, from any later state *)
  assert (forall n w2, fs w2 ⊆ fs w -> fs w2 !! (p ++ [n]) = Some Directory ->
            exists w3,
              iterate_directories pf fuel (clean_folders_body pf) (p ++ [n]) w2
                = Return tt w3 /\
              pruned_from (p ++ [n]) (fs w2) (fs w3) /\
              forall q, well_formed (fs w2) -> strictly_below (p ++ [n]) q ->
                        empty_or_gone (fs w2) q -> fs w3 !! q = None) as Hsub.
  { intros n w2 Hs Hd. apply IH; [done|]. intros q Hq.
    pose proof (lookup_weaken _ _ _ _ Hq Hs) as Hq'.
    specialize (Hbound q Hq'). rewrite length_app; simpl. lia. }
  simpl. unfold select_from_wildcard, bind at 1 2.
  destruct (scandir_directory pf listing p w) as (es & -> & Hes); [done|].
  (* first the entries of [p], one by one *)
  destruct (for_each_reaches (fun w1 => pruned_from p (fs w) (fs w1)) es
              (fun e => clean_folders_body pf (p ++ [e.1]))) with (w := w)
    as (w1 & -> & Hw1 & Hreach1); [ | apply pruned_from_refl | ].
  { intros x w0 _ Hw0.
    destruct (clean_folders_body_prunes p x.1 w0) as (w0' & ? & ? & _).
    exists w0'. split; [done|].
    eapply pruned_from_trans; [|done..]. done. }
  assert (fs w1 !! p = Some Directory) as Hp1.
  { destruct (fs w1 !! p) as [i|] eqn:Hi.
    - destruct Hw1 as (Hs & _). pose proof (lookup_weaken _ _ _ _ Hi Hs).
      congruence.
    - destruct Hw1 as (_ & Hr & _). destruct (Hr p _ Hp Hi) as [_ Hb].
      by apply strictly_below_irrefl in Hb. }
  unfold bind.
  destruct (scandir_directory pf listing p w1) as (es1 & -> & Hes1); [done|].
  (* then the subdirectories found on listing [p] again *)
  set (I2 := fun w2 : world =>
         pruned_from p (fs w1) (fs w2) /\
         forall n, fs w1 !! (p ++ [n]) = Some Directory ->
                   fs w2 !! (p ++ [n]) = Some Directory).
  set (body2 := fun e : string * inode =>
         match e.2 with
         | Directory =>
             iterate_directories pf fuel (clean_folders_body pf) (p ++ [e.1])
         | File _ => ret tt
         end).
  assert (forall x w2, x ∈ es1 -> I2 w2 ->
            exists w3, body2 x w2 = Return tt w3 /\ I2 w3 /\
              fs w3 ⊆ fs w2 /\
              (x.2 = Directory ->
               forall q, well_formed (fs w2) -> strictly_below (p ++ [x.1]) q ->
                         empty_or_gone (fs w2) q -> fs w3 !! q = None))
    as Hbody2.
  { intros [n i] w2 Hin [Hpr Hkept]. unfold body2; simpl.
    destruct i as [st|]; [by exists w2|].
    apply Hes1 in Hin.
    destruct (Hsub n w2) as (w3 & Hrun & Hpr3 & Hgone3).
    { destruct Hpr as (Hs2 & _). destruct Hw1 as (Hs1 & _). by etrans. }
    { by apply Hkept. }
    exists w3. split; [done|].
    split; [|split; [by destruct Hpr3 | by intros _]].
    split.
    - eapply pruned_from_trans; [|done..]. apply strictly_below_child.
    - intros m Hm. specialize (Hkept m Hm).
      destruct (fs w3 !! (p ++ [m])) as [j|] eqn:Hj.
      + destruct Hpr3 as (Hs3 & _).
        pose proof (lookup_weaken _ _ _ _ Hj Hs3). congruence.
      + destruct Hpr3 as (_ & Hr3 & _). destruct (Hr3 _ _ Hkept Hj) as [_ Hb].
        by apply strictly_below_sibling in Hb. }
  destruct (for_each_reaches I2 es1 body2) with (w := w1)
    as (w' & -> & [Hw' _] & Hreach2).
  { intros x w2 Hx Hw2. destruct (Hbody2 x w2 Hx Hw2) as (w3 & ? & ? & _).
    eauto. }
  { split; [apply pruned_from_refl | done]. }
  exists w'. split; [done|].
  split; [by eapply pruned_from_trans|].
  (* an empty directory below [p] is gone in the end *)
  intros q Hwf (r & Hr & ->) HT.
  assert (forall w2 w3 : world, fs w3 ⊆ fs w2 ->
            fs w2 !! (p ++ r) = None -> fs w3 !! (p ++ r) = None) as Hgone
    by (intros; by eapply gone_subseteq).
  destruct r as [|n rest]; [done|]. clear Hr.
  destruct (decide (rest = [])) as [->|Hrest].
  - (* an entry of [p]: removed when the first loop comes to it *)
    assert (fs w1 !! (p ++ [n]) = None) as Hn1.
    { destruct (Hreach1 (fun w0 => fs w0 !! (p ++ [n]) = None))
        as [Hkeep Hest].
      { intros x w0 w0' _ _ Hrun.
        destruct (clean_folders_body_prunes p x.1 w0) as (w0'' & Hrun' & Hpr & _).
        rewrite Hrun in Hrun'. injection Hrun' as <-.
        apply Hgone. by destruct Hpr. }
      destruct HT as [[Hd He]|Hn]; [|by apply Hkeep].
      apply (Hest (n, Directory)); [by apply Hes|].
      intros w0 w0' Hw0 Hrun.
      destruct (clean_folders_body_prunes p n w0) as (w0'' & Hrun' & _ & Hg).
      simpl in Hrun. rewrite Hrun in Hrun'. injection Hrun' as <-.
      apply Hg. destruct Hw0 as (Hs & _).
      eapply empty_or_gone_subseteq; [done|]. by left. }
    apply (Hgone w1); [by destruct Hw'|done].
  - (* deeper: removed by the walk of the entry of [p] above it *)
    assert (empty_or_gone (fs w1) (p ++ n :: rest)) as HT1.
    { destruct Hw1 as (Hs & _). by eapply empty_or_gone_subseteq. }
    assert (well_formed (fs w1)) as Hwf1 by (destruct Hw1 as (_ & _ & ?); auto).
    destruct (Hreach2 (fun w0 => fs w0 !! (p ++ n :: rest) = None))
      as [Hkeep Hest].
    { intros x w2 w3 Hx Hw2 Hrun.
      destruct (Hbody2 x w2 Hx Hw2) as (w3' & Hrun' & _ & Hs3 & _).
      rewrite Hrun in Hrun'. injection Hrun' as <-. by apply Hgone. }
    destruct HT1 as [[Hd1 He1]|Hn1]; [|by apply Hkeep].
    assert (fs w1 !! (p ++ [n]) = Some Directory) as Hc.
    { apply (well_formed_ancestor _ _ rest Directory); [done..|].
      by rewrite <- app_assoc. }
    apply (Hest (n, Directory)); [by apply Hes1|].
    intros w2 w3 Hw2 Hrun.
    destruct (Hbody2 (n, Directory) w2) as (w3' & Hrun' & _ & _ & Hg);
      [by apply Hes1 | done |].
    rewrite Hrun in Hrun'. injection Hrun' as <-.
    destruct Hw2 as [(Hs2 & _ & Hwf2) _].
    apply Hg; [done | by auto | |].
    + exists rest. split; [done|]. by rewrite <- app_assoc.
    + eapply empty_or_gone_subseteq; [done|]. by left.
Qed.

End PruningPass.

Section PruningTheorems.

Variable pf : platform.
Hypothesis listing : faithful_listing pf.
Hypothesis permitted : permits_rmdir pf.

Lemma clean_folders_prunes folder fuel w :
  (depth (fs w) < fuel)%nat ->
  exists w',
    clean_folders pf fuel folder w = Return tt w' /\
    pruned_from folder (fs w) (fs w') /\
    forall q, well_formed (fs w) -> strictly_below folder q ->
              empty_or_gone (fs w) q -> fs w' !! q = None.
Proof.
  intros Hd. unfold clean_folders, for_rglob, bind, is_dir.
  case_bool_decide as Hf.
  - apply (iterate_directories_prunes pf listing permitted); [done|].
    intros q Hq. apply depth_ge in Hq. lia.
  - exists w. split; [done|]. split; [apply pruned_from_refl|].
    intros q Hwf (r & Hr & ->) [[Hq _]|Hq]; [|done].
    destruct Hf. by apply (well_formed_ancestor _ _ r Directory).
Qed.

(** On a platform that refuses no [rmdir], a pass of [clean_folders]
    returns (given fuel for the depth of the tree) and only ever removes
    directories that lie below [folder]: every regular file is still at its
    path with its inode, [folder] itself and everything outside it are
    untouched, nothing is added, and a well-formed tree stays well-formed
    (no directory is removed from above something that is kept). *)
Theorem pruning_removes_only_directories folder fuel w :
  (depth (fs w) < fuel)%nat ->
  exists w',
    clean_folders pf fuel folder w = Return tt w' /\
    fs w' ⊆ fs w /\
    (forall q st, fs w !! q = Some (File st) -> fs w' !! q = Some (File st)) /\
    (forall q, ~ strictly_below folder q -> fs w' !! q = fs w !! q) /\
    (well_formed (fs w) -> well_formed (fs w')).
Proof.
  intros Hd.
  destruct (clean_folders_prunes folder fuel w Hd)
    as (w' & Hrun & (Hs & Hr & Hwf) & _).
  exists w'. split; [done|]. split; [done|]. split; [|split; [|done]].
  - intros q st Hq. destruct (fs w' !! q) as [i|] eqn:Hi.
    + pose proof (lookup_weaken _ _ _ _ Hi Hs). congruence.
    + by destruct (Hr _ _ Hq Hi).
  - intros q Hq. destruct (fs w' !! q) as [i|] eqn:Hi.
    + by rewrite (lookup_weaken _ _ _ _ Hi Hs).
    + destruct (fs w !! q) as [j|] eqn:Hj; [|done].
      by destruct (Hr _ _ Hj Hi).
Qed.

(** On a platform that refuses no [rmdir], a pass of [clean_folders] over
    a well-formed tree removes every directory below [folder] that is empty
    when the pass starts, however deep it lies. *)
Theorem pruning_removes_the_empty_directories folder fuel w :
  (depth (fs w) < fuel)%nat ->
  well_formed (fs w) ->
  exists w',
    clean_folders pf fuel folder w = Return tt w' /\
    forall q, strictly_below folder q -> is_empty_directory (fs w) q ->
              fs w' !! q = None.
Proof.
  intros Hd Hwf.
  destruct (clean_folders_prunes folder fuel w Hd) as (w' & Hrun & _ & Hg).
  exists w'. split; [done|]. intros q Hq He. apply Hg; [done..|]. by left.
Qed.

End PruningTheorems.

Lemma pruning_removes_only_directories_witness :
  exists w',
    clean_folders (posix (date 2024 6 1)) 10 ["photos"]
      (empty_log photos_tree) = Return tt w' /\
    fs w' ⊆ photos_tree /\
    (forall q st, photos_tree !! q = Some (File st) ->
                  fs w' !! q = Some (File st)) /\
    (forall q, ~ strictly_below ["photos"] q ->
               fs w' !! q = photos_tree !! q) /\
    (well_formed photos_tree -> well_formed (fs w')).
Proof.
  apply (pruning_removes_only_directories (posix (date 2024 6 1))
           (posix_faithful (date 2024 6 1)) (fun p => eq_refl)
           ["photos"] 10 (empty_log photos_tree)).
  vm_compute. lia.
Defined.

Lemma pruning_removes_the_empty_directories_witness :
  exists w',
    clean_folders (posix (date 2024 6 1)) 10 ["photos"]
      (empty_log photos_tree) = Return tt w' /\
    forall q, strictly_below ["photos"] q ->
              is_empty_directory photos_tree q -> fs w' !! q = None.
Proof.
  apply (pruning_removes_the_empty_directories (posix (date 2024 6 1))
           (posix_faithful (date 2024 6 1)) (fun p => eq_refl)
           ["photos"] 10 (empty_log photos_tree)).
  - vm_compute. lia.
  - refine (bool_decide_unpack _ _). vm_compute. exact I.
Defined.

(** ** An invariant of the tree, kept whether a command returns or raises *)

Section Keeps.

Variable Inv : gmap path inode -> Prop.












End Keeps.



Section WellFormedKept.

Variable pf : platform.



















End WellFormedKept.

(** ** The commands run to their end *)

Section CommandsReturn.

Variable pf : platform.
Hypothesis listing : faithful_listing pf.
Hypothesis mkdir_permitted : permits_mkdir pf.
Hypothesis rmdir_permitted : permits_rmdir pf.

(** More fuel does not change what a loop returns. *)
Lemma skeleton_loop_fuel continue bucket fuel fuel' start w d w' :
  skeleton_loop pf fuel continue bucket start w = Return d w' ->
  (fuel <= fuel')%nat ->
  skeleton_loop pf fuel' continue bucket start w = Return d w'.
Proof.
  revert fuel' start w. induction fuel as [|fuel IH];
    intros [|fuel'] start w Hrun Hle; try done; try lia.
  simpl in *. destruct (continue start); [|done].
  unfold bind in *.
  destruct (ensure_directory pf (bucket start) w) as [[] w1| |]; [|done..].
  destruct (plus_one_day start w1) as [s w2| |]; [|done..].
  apply IH; [done|lia].
Qed.

(** Relocation then pruning return: a failed move is caught, and [rmdir]
    is let through. *)
Lemma relocate_then_prune_returns folder read_target pruned fuel w :
  (depth (fs w) < fuel)%nat ->
  exists w',
    (move_files pf fuel folder read_target ;;;
     clean_folders pf fuel pruned) w = Return tt w'.
Proof.
  intros Hd. unfold bind.
  destruct (relocation_keeps_every_entry pf folder read_target fuel w listing Hd)
    as (w1 & -> & _ & Hdirs).
  destruct (clean_folders_prunes pf listing rmdir_permitted pruned fuel w1)
    as (w2 & -> & _); [|by eauto].
  unfold depth in *. by rewrite Hdirs.
Qed.

(** A loop that visits finitely many dates, then a rest that returns given
    fuel: the whole returns given fuel. *)
Lemma skeleton_then_returns continue bucket start ds final
    (rest : nat -> datetime -> M unit) w :
  visits continue start ds final ->
  fs w !! [] = Some Directory ->
  (forall d, clear_for (fs w) (bucket d)) ->
  (forall w1, exists fuel1, forall fuel, (fuel1 <= fuel)%nat ->
     exists w', rest fuel final w1 = Return tt w') ->
  exists fuel0, forall fuel, (fuel0 <= fuel)%nat ->
    exists w',
      (x <- skeleton_loop pf fuel continue bucket start ;; rest fuel x) w
        = Return tt w'.
Proof.
  intros Hvis Hroot Hclear Hrest.
  destruct (skeleton_loop_builds pf mkdir_permitted continue bucket start ds
              final Hvis (S (length ds)) w) as (t1 & l & Hrun & _);
    [lia | done | by eauto |].
  destruct (Hrest (mk_world t1 (log w ++ l))) as (fuel1 & Hfuel1).
  exists (max (S (length ds)) fuel1). intros fuel Hfuel.
  unfold bind.
  rewrite (skeleton_loop_fuel _ _ _ fuel _ _ _ _ Hrun) by lia.
  apply Hfuel1. lia.
Qed.

(** [month], for a start date in January to November, on a platform that
    refuses neither [mkdir] nor [rmdir], over a tree with its root and no
    regular file at a bucket path or above one: the command returns, given
    enough fuel. *)
Theorem month_returns start folder w :
  valid_date start -> dt_month start < 12 ->
  fs w !! [] = Some Directory ->
  (forall d, clear_for (fs w) (month_bucket folder d)) ->
  exists fuel0, forall fuel, (fuel0 <= fuel)%nat ->
    exists w', month pf fuel start folder w = Return tt w'.
Proof.
  intros (Hy & Hm & _) Hm12 Hroot Hclear.
  destruct start as [y m d0 ? ? ? ?]; simpl in *.
  pose proof (days_in_month_bounds y m) as Hb.
  unfold MINYEAR, MAXYEAR in *.
  destruct (visits_range (fun s => dt_month s <? m + 1) y m
              (days_in_month y m) (date y (m + 1) 1))
    with (n := 30%nat) (y := y) (m := m) (d := 1)
    as (ds & Hvis & _ & _).
  - repeat split; simpl; unfold MINYEAR, MAXYEAR; lia.
  - unfold add_one_day; simpl. rewrite Z.ltb_irrefl.
    by rewrite (proj2 (Z.ltb_lt m 12)) by lia.
  - simpl. apply Z.ltb_irrefl.
  - repeat split; simpl; unfold MINYEAR, MAXYEAR; lia.
  - unfold day_key; simpl. lia.
  - intros e (Hey & Hem & Hed) _ Hk.
    pose proof (days_in_month_bounds (dt_year e) (dt_month e)).
    unfold day_key in Hk; simpl in Hk. apply Z.ltb_lt. lia.
  - set (w0 := mk_world (fs w)
                 ((log w ++ [(INFO, Organizing_by_month folder)])
                    ++ [(INFO, Starting_from_date (date y m 1))])).
    destruct (skeleton_then_returns (fun s => dt_month s <? m + 1)
                (month_bucket folder) (date y m 1) ds (date y (m + 1) 1)
                (fun fuel start =>
                   start <- minus_one_day start ;;
                   move_files pf fuel folder
                     (Some (folder ++ [slice_0_3 (strftime_B start)])) ;;;
                   clean_folders pf fuel
                     (folder ++ [slice_0_3 (strftime_B start)])) w0)
      as (fuel0 & Hfuel0); [done..| |].
    { intros w1. exists (S (depth (fs w1))). intros fuel Hfuel.
      unfold bind at 1, minus_one_day, sub_one_day; simpl.
      rewrite (proj2 (Z.ltb_lt 1 (m + 1))) by lia. simpl.
      apply relocate_then_prune_returns. lia. }
    exists fuel0. intros fuel Hfuel.
    destruct (Hfuel0 fuel Hfuel) as (w' & Hrun). exists w'.
    rewrite <- Hrun. unfold month, bind at 1 2, logger; simpl.
    unfold bind at 1 3. unfold replace_day; simpl. fold (date y m 1).
    by rewrite month_loop_skeleton.
Qed.

(** [year], for a start date before year 9999, under the same conditions:
    the command returns, given enough fuel. *)
Theorem year_returns start folder w :
  valid_date start -> dt_year start < MAXYEAR ->
  fs w !! [] = Some Directory ->
  (forall d, clear_for (fs w) (year_bucket folder d)) ->
  exists fuel0, forall fuel, (fuel0 <= fuel)%nat ->
    exists w', year pf fuel start folder w = Return tt w'.
Proof.
  intros (Hy & _ & _) Hy9 Hroot Hclear.
  destruct start as [y m0 d0 ? ? ? ?]; simpl in *.
  unfold MINYEAR, MAXYEAR in *.
  destruct (visits_range (fun s => dt_year s <? y + 1) y 12 31
              (date (y + 1) 1 1)) with (n := 371%nat) (y := y) (m := 1) (d := 1)
    as (ds & Hvis & _ & _).
  - repeat split; simpl; unfold MINYEAR, MAXYEAR; lia.
  - unfold add_one_day; simpl. unfold MAXYEAR.
    by rewrite (proj2 (Z.ltb_lt y 9999)) by lia.
  - simpl. apply Z.ltb_irrefl.
  - repeat split; simpl; unfold MINYEAR, MAXYEAR; lia.
  - unfold day_key; simpl. lia.
  - intros e (Hey & Hem & Hed) _ Hk.
    pose proof (days_in_month_bounds (dt_year e) (dt_month e)).
    unfold day_key in Hk; simpl in Hk. apply Z.ltb_lt. lia.
  - set (w0 := mk_world (fs w)
                 ((log w ++ [(INFO, Organizing_by_year folder)])
                    ++ [(INFO, Starting_from_date (date y 1 1))])).
    destruct (skeleton_then_returns (fun s => dt_year s <? y + 1)
                (year_bucket folder) (date y 1 1) ds (date (y + 1) 1 1)
                (fun fuel start =>
                   start <- minus_one_day start ;;
                   move_files pf fuel (folder ++ [str_year start]) None ;;;
                   clean_folders pf fuel (folder ++ [str_year start])) w0)
      as (fuel0 & Hfuel0); [done..| |].
    { intros w1. exists (S (depth (fs w1))). intros fuel Hfuel.
      unfold bind at 1, minus_one_day, sub_one_day; simpl.
      unfold MINYEAR. rewrite (proj2 (Z.ltb_lt 1 (y + 1))) by lia. simpl.
      apply relocate_then_prune_returns. lia. }
    exists fuel0. intros fuel Hfuel.
    destruct (Hfuel0 fuel Hfuel) as (w' & Hrun). exists w'.
    rewrite <- Hrun. unfold year, bind at 1 2, logger; simpl.
    unfold bind at 1 3. unfold replace_date; simpl. fold (date y 1 1).
    by rewrite year_loop_skeleton.
Qed.

(** [all], when the clock shows a valid date before year 9999, under the
    same conditions: the command returns, given enough fuel (also when the
    start year lies after today, the loop then making nothing). *)
Theorem all_returns start folder w :
  valid_date start ->
  valid_date (datetime_now pf) -> dt_year (datetime_now pf) < MAXYEAR ->
  fs w !! [] = Some Directory ->
  (forall d, clear_for (fs w) (year_bucket folder d)) ->
  exists fuel0, forall fuel, (fuel0 <= fuel)%nat ->
    exists w', all pf fuel start folder w = Return tt w'.
Proof.
  intros (Hy & _ & _) Hvn Hyn Hroot Hclear.
  destruct start as [y m0 d0 ? ? ? ?]; simpl in *.
  destruct (datetime_now pf) as [ty tm td ? ? ? ?] eqn:Hnow; simpl in *.
  assert (valid_date (date ty tm td)) as Hvt by done.
  assert (valid_date (date y 1 1)) as Hvf
    by (repeat split; simpl; unfold MINYEAR, MAXYEAR in *; lia).
  assert (exists ds final,
            visits (fun s => datetime_le s (date ty tm td)) (date y 1 1)
              ds final) as (ds & final & Hvis).
  { destruct (datetime_le (date y 1 1) (date ty tm td)) eqn:Hle.
    - apply datetime_le_key in Hle; [|done..].
      destruct (add_one_day_next ty tm td Hvt)
        as (y1 & m1 & d1 & Hnext & Hv1 & Hlt & _ & _).
      { destruct Hvt as (? & ? & ?). simpl in *.
        pose proof (days_in_month_bounds ty tm).
        unfold day_key, MAXYEAR in *; simpl. lia. }
      destruct (visits_range (fun s => datetime_le s (date ty tm td)) ty tm td
                  (date y1 m1 d1) Hvt Hnext)
        with (n := Z.to_nat (day_key (date ty tm td) - day_key (date y 1 1)))
             (y := y) (m := 1) (d := 1)
        as (ds & Hvis & _ & _); [ |done|lia| |by eauto].
      + destruct (datetime_le (date y1 m1 d1) (date ty tm td)) eqn:Hle1;
          [|done].
        apply datetime_le_key in Hle1; [lia|done..].
      + intros e Hve He [_ Hk]. rewrite He in *. by apply datetime_le_key.
    - exists [], (date y 1 1). by constructor. }
  set (w0 := mk_world (fs w)
               ((log w ++ [(INFO, Organizing_by_year folder)])
                  ++ [(INFO, Starting_from_date (date y 1 1))])).
  destruct (skeleton_then_returns (fun s => datetime_le s (date ty tm td))
              (year_bucket folder) (date y 1 1) ds final
              (fun fuel _ =>
                 move_files pf fuel folder None ;;;
                 clean_folders pf fuel folder) w0)
    as (fuel0 & Hfuel0); [done..| |].
  { intros w1. exists (S (depth (fs w1))). intros fuel Hfuel.
    apply relocate_then_prune_returns. lia. }
  exists fuel0. intros fuel Hfuel.
  destruct (Hfuel0 fuel Hfuel) as (w' & Hrun). exists w'.
  rewrite <- Hrun. unfold all, bind at 1 2, logger; simpl.
  unfold bind at 1 3. unfold replace_date, replace_time; simpl.
  rewrite Hnow; simpl. fold (date y 1 1). fold (date ty tm td).
  by rewrite all_loop_skeleton.
Qed.

End CommandsReturn.

Lemma month_returns_witness :
  exists fuel0, forall fuel, (fuel0 <= fuel)%nat ->
    exists w', month (posix (date 2024 6 1)) fuel (date 2024 2 15) ["photos"]
                 (empty_log nested_tree) = Return tt w'.
Proof.
  apply (month_returns (posix (date 2024 6 1))
           (posix_faithful (date 2024 6 1)) (fun p => eq_refl)
           (fun p => eq_refl) (date 2024 2 15) ["photos"]
           (empty_log nested_tree)).
  - vm_compute. intuition discriminate.
  - reflexivity.
  - vm_compute. reflexivity.
  - intros d. apply no_regular_file_clear.
    refine (bool_decide_unpack _ _). vm_compute. exact I.
Defined.

Lemma year_returns_witness :
  exists fuel0, forall fuel, (fuel0 <= fuel)%nat ->
    exists w', year (posix (date 2024 6 1)) fuel (date 2024 2 15) ["photos"]
                 (empty_log nested_tree) = Return tt w'.
Proof.
  apply (year_returns (posix (date 2024 6 1))
           (posix_faithful (date 2024 6 1)) (fun p => eq_refl)
           (fun p => eq_refl) (date 2024 2 15) ["photos"]
           (empty_log nested_tree)).
  - vm_compute. intuition discriminate.
  - reflexivity.
  - vm_compute. reflexivity.
  - intros d. apply no_regular_file_clear.
    refine (bool_decide_unpack _ _). vm_compute. exact I.
Defined.

Lemma all_returns_witness :
  exists fuel0, forall fuel, (fuel0 <= fuel)%nat ->
    exists w', all (posix (date 2024 6 1)) fuel (date 2024 2 15) ["photos"]
                 (empty_log nested_tree) = Return tt w'.
Proof.
  apply (all_returns (posix (date 2024 6 1))
           (posix_faithful (date 2024 6 1)) (fun p => eq_refl)
           (fun p => eq_refl) (date 2024 2 15) ["photos"]
           (empty_log nested_tree)).
  - vm_compute. intuition discriminate.
  - vm_compute. intuition discriminate.
  - reflexivity.
  - vm_compute. reflexivity.
  - intros d. apply no_regular_file_clear.
    refine (bool_decide_unpack _ _). vm_compute. exact I.
Defined.
